(** * The index builder of the app directory (scripts/build-index.cjs)

    A shallow embedding of the build script: JSON values as the script
    receives them from [JSON.parse], the enrichment client
    [fetchGitHubMetadata], the loader [loadAllApps], the per-project builder
    [buildProjectIndex] and the driver [buildIndexes] with its master index.

    Console output and the files written under [dist/] are threaded through a
    state-and-exception monad, because a JavaScript exception keeps whatever
    was logged or written before it was raised. *)

From Stdlib Require Import List String Ascii ZArith Bool Lia Arith.
From Stdlib Require Import DecimalString Permutation Sorted.
Import ListNotations.

Local Open Scope list_scope.
Local Open Scope string_scope.

(** ** JSON values *)

(** What [JSON.parse] can return.  Numbers are the integral ones (counts and
    the like); [undefined] is not a JSON value and appears as [None] where a
    property is read. *)
#[warnings="-register-all"]
Inductive json : Type :=
| JNull
| JBool (b : bool)
| JNum (n : Z)
| JStr (s : string)
| JArr (l : list json)
| JObj (fields : list (string * json)).

(** An object: its own properties in insertion order. *)
Definition obj : Type := list (string * json).

(** [o[k]] for an object without inherited properties of that name. *)
Fixpoint get (k : string) (o : obj) : option json :=
  match o with
  | [] => None
  | (k', v) :: r => if String.eqb k k' then Some v else get k r
  end.

(** [{...o, k: v}]: an existing key keeps its place, a new one goes last. *)
Fixpoint set (k : string) (v : json) (o : obj) : obj :=
  match o with
  | [] => [(k, v)]
  | (k', v') :: r =>
      if String.eqb k k' then (k, v) :: r else (k', v') :: set k v r
  end.

(** [v.k] for a property name [k] that no primitive wrapper or array
    defines: only objects answer. *)
Definition prop (v : json) (k : string) : option json :=
  match v with
  | JObj o => get k o
  | _ => None
  end.

(** JavaScript truthiness. *)
Definition truthy (v : option json) : bool :=
  match v with
  | None | Some JNull | Some (JBool false) | Some (JNum 0) | Some (JStr "") => false
  | Some _ => true
  end.

Definition decimal (n : Z) : string := NilZero.string_of_int (Z.to_int n).

(** [String(v)], as a template literal or a property key applies it. *)
Fixpoint toStringJ (v : json) : string :=
  match v with
  | JNull => "null"
  | JBool true => "true"
  | JBool false => "false"
  | JNum n => decimal n
  | JStr s => s
  | JArr l =>
      (fix join (l : list json) : string :=
         match l with
         | [] => ""
         | x :: r =>
             let sx := match x with JNull => "" | _ => toStringJ x end in
             match r with
             | [] => sx
             | _ :: _ => sx ++ "," ++ join r
             end
         end) l
  | JObj _ => "[object Object]"
  end.

Definition toString (v : option json) : string :=
  match v with
  | None => "undefined"
  | Some x => toStringJ x
  end.

(** [SameValueZero] between two parsed values: primitives by value, arrays
    and objects by identity, and two parsed values never share identity. *)
Definition sameValueZero (a b : json) : bool :=
  match a, b with
  | JNull, JNull => true
  | JBool x, JBool y => Bool.eqb x y
  | JNum x, JNum y => Z.eqb x y
  | JStr x, JStr y => String.eqb x y
  | _, _ => false
  end.

(** [l.includes(v)] for a parsed array [l]; [undefined] is in none. *)
Definition includes (l : list json) (v : option json) : bool :=
  match v with
  | None => false
  | Some x => existsb (fun y => sameValueZero y x) l
  end.

(** ** Records of the build *)

(** A parsed [project.json]: the fields the builder reads.  The filter lists
    are arrays when present. *)
Record ProjectConfig := {
  cfg_id : option json;
  cfg_name : option json;
  cfg_description : option json;
  include_only : option (list json);
  exclude_apps : option (list json);
  featured_categories : option (list json)
}.

(** What a lookup in the [categoryCounts] object yields once [|| 0] has been
    applied: a number, or a truthy value that is not a number (a function or
    object inherited from [Object.prototype], or the string its [+ 1]
    produced). *)
Inductive countVal : Type :=
| Count (n : nat)
| NonNumeric.

(** [{...cat, id, originalId, (project,) count}]: the keys the literal
    writes, and [cat]'s own fields behind them. *)
Record NamespacedCategory := {
  nc_id : string;
  originalId : option json;
  nc_project : option string;
  count : countVal;
  nc_rest : obj
}.

Record ProjectInfo := {
  pi_id : option json;
  pi_name : option json;
  pi_description : json
}.

Record ProjectIndex := {
  version : string;
  project : ProjectInfo;
  updated : string;
  apps : list obj;
  categories : list NamespacedCategory
}.

Record MasterIndex := {
  m_version : string;
  m_updated : string;
  m_apps : list obj;
  m_categories : list NamespacedCategory
}.

Inductive artifact : Type :=
| ProjectArtifact (index : ProjectIndex)
| MasterArtifact (index : MasterIndex).

(** ** Exceptions, console and the state monad *)

Inductive exn : Type :=
| InvalidUrl
| FetchFailed
| ReadOrParseError (file : string)
| TypeError
| MkdirError (path : string)
| WriteError (path : string).

(** One constructor per [console.log] / [console.error] call of the script. *)
Inductive line : Type :=
| MetadataWarning (e : exn)
| FetchingMetadata (appId : string)
| AppError (file : string) (e : exn)
| CategoriesNotFound (projectId path : string)
| LoadingApps
| LoadedApps (n : nat)
| BuildingProject (name : string)
| BuiltIndex (path : string) (napps ncategories : nat)
| ProjectError (file : string) (e : exn)
| BuildingMaster
| BuildComplete
| Uncaught (e : exn).

(** The effects of a run: console lines, oldest first, and the files written
    under [dist/], oldest first. *)
Record effects := {
  console : list line;
  written : list (string * artifact)
}.

Definition noEffects : effects := {| console := []; written := [] |}.

Inductive completion (A : Type) : Type :=
| Normal (a : A)
| Throw (e : exn).
Arguments Normal {A} a.
Arguments Throw {A} e.

Definition M (A : Type) : Type := effects -> completion A * effects.

Definition ret {A} (a : A) : M A := fun s => (Normal a, s).
Definition throw {A} (e : exn) : M A := fun s => (Throw e, s).

Definition bind {A B} (m : M A) (k : A -> M B) : M B :=
  fun s =>
    match m s with
    | (Normal a, s') => k a s'
    | (Throw e, s') => (Throw e, s')
    end.

(** [try { m } catch (e) { h e }] *)
Definition try_catch {A} (m : M A) (h : exn -> M A) : M A :=
  fun s =>
    match m s with
    | (Normal a, s') => (Normal a, s')
    | (Throw e, s') => h e s'
    end.

Definition log (l : line) : M unit :=
  fun s => (Normal tt, {| console := (console s ++ [l])%list; written := written s |}).

Declare Scope js_scope.
Delimit Scope js_scope with js.
Notation "x <- m ;; k" := (bind m (fun x => k))
  (at level 61, m at next level, right associativity) : js_scope.
Notation "m ;;; k" := (bind m (fun _ => k))
  (at level 61, right associativity) : js_scope.

(** A pure computation that may throw, lifted into [M]. *)
Definition lift {A} (c : completion A) : M A := fun s => (c, s).

(** [for (const x of l) { body x }] over an accumulator. *)
Fixpoint for_of {A B} (l : list A) (body : B -> A -> M B) (acc : B) : M B :=
  match l with
  | [] => ret acc
  | x :: r => bind (body acc x) (for_of r body)
  end.

(** ** String helpers used by the enrichment client *)

(** The text after [p] when [s] starts with [p]. *)
Fixpoint stripPrefix (p s : string) : option string :=
  match p, s with
  | EmptyString, _ => Some s
  | String a p', String b s' => if Ascii.eqb a b then stripPrefix p' s' else None
  | String _ _, EmptyString => None
  end.

Definition slash : ascii := "/"%char.

(** The longest prefix matching [[^/]*], and what follows it. *)
Fixpoint spanNonSlash (s : string) : string * string :=
  match s with
  | EmptyString => (EmptyString, EmptyString)
  | String c r =>
      if Ascii.eqb c slash then (EmptyString, s)
      else let (run, rest) := spanNonSlash r in (String c run, rest)
  end.

Definition isEmpty (s : string) : bool :=
  match s with EmptyString => true | String _ _ => false end.

(** [/github\.com\/([^/]+)\/([^/]+)/] tried at the start of [s].  Both
    groups are greedy runs of non-slash characters, so the first is the whole
    run up to the next slash and the second the whole run after it. *)
Definition matchRepoAt (s : string) : option (string * string) :=
  match stripPrefix "github.com/" s with
  | None => None
  | Some r =>
      let (owner, r1) := spanNonSlash r in
      if isEmpty owner then None
      else match r1 with
           | String _ r2 =>
               let (repo, _) := spanNonSlash r2 in
               if isEmpty repo then None else Some (owner, repo)
           | EmptyString => None
           end
  end.

(** [regex.exec(s)]: the leftmost position where the pattern matches. *)
Fixpoint execRepo (s : string) : option (string * string) :=
  match matchRepoAt s with
  | Some m => Some m
  | None =>
      match s with
      | EmptyString => None
      | String _ r => execRepo r
      end
  end.

Definition rev_string (s : string) : string :=
  string_of_list_ascii (rev (list_ascii_of_string s)).

(** [repo.replace(/\.git$/, '')] *)
Definition stripGitSuffix (repo : string) : string :=
  match stripPrefix "tig." (rev_string repo) with
  | Some r => rev_string r
  | None => repo
  end.

(** ** The outside world *)

(** What [await fetch(url)] followed by [response.json()] can do. *)
Inductive response : Type :=
| NoResponse                               (* fetch rejects *)
| Response (ok : bool) (body : option json). (* body: None when json() rejects *)

(** The files the script reads and the file-system calls that may fail.
    App records, project configs and category entries are JSON objects, as
    the schemas have them.  A read-and-parse outcome is [None] when
    [readFileSync] or [JSON.parse] throws, or when dereferencing the parsed
    value does ([null] for a record, no [categories] array in a category
    file). *)
Record FileSystem := {
  (* the app files the glob under apps/ finds, each path with its outcome *)
  appFiles : list (string * option obj);
  (* the project.json files found one directory below projects/: the name
     of the directory and the outcome *)
  projectFiles : list (string * option ProjectConfig);
  (* the categories.json files that exist one directory below projects/:
     the name of the directory and the outcome of reading [data.categories] *)
  categoryFiles : list (string * option (list obj));
  distExists : bool;
  mkdirSucceeds : bool;
  writeSucceeds : string -> bool
}.

Fixpoint assoc {A} (k : string) (l : list (string * A)) : option A :=
  match l with
  | [] => None
  | (k', v) :: r => if String.eqb k k' then Some v else assoc k r
  end.

Definition PROJECT_INDEX_VERSION : string := "0.1.0".
Definition MASTER_INDEX_VERSION : string := "0.1.0".

(** The own property names of [Object.prototype], which every object
    literal inherits. *)
Definition objectPrototypeKeys : list string :=
  [ "constructor"; "__defineGetter__"; "__defineSetter__"; "hasOwnProperty";
    "__lookupGetter__"; "__lookupSetter__"; "isPrototypeOf";
    "propertyIsEnumerable"; "toString"; "valueOf"; "__proto__";
    "toLocaleString" ].

Definition inherited (k : string) : bool :=
  existsb (String.eqb k) objectPrototypeKeys.

(** [categoryCounts[k] || 0] on the object literal [categoryCounts]. *)
Definition countOrZero (categoryCounts : list (string * countVal)) (k : string) : countVal :=
  match assoc k categoryCounts with
  | Some v => v
  | None => if inherited k then NonNumeric else Count 0
  end.

(** [v + 1]: addition on a number, concatenation on anything else. *)
Definition plusOne (v : countVal) : countVal :=
  match v with
  | Count n => Count (S n)
  | NonNumeric => NonNumeric
  end.

Fixpoint setCount (k : string) (v : countVal) (o : list (string * countVal))
  : list (string * countVal) :=
  match o with
  | [] => [(k, v)]
  | (k', v') :: r =>
      if String.eqb k k' then (k, v) :: r else (k', v') :: setCount k v r
  end.

(** [categoryCounts[k] = v].  The [__proto__] setter ignores a value that is
    neither an object nor null, and the value assigned under that key is
    always a string. *)
Definition assignCount (k : string) (v : countVal) (o : list (string * countVal))
  : list (string * countVal) :=
  if String.eqb k "__proto__" then o else setCount k v o.

(** [apps.forEach(app => { categoryCounts[app.category] =
    (categoryCounts[app.category] || 0) + 1; })] from [{}]. *)
Definition countCategories (apps : list obj) : list (string * countVal) :=
  fold_left
    (fun categoryCounts app =>
       let k := toString (get "category" app) in
       assignCount k (plusOne (countOrZero categoryCounts k)) categoryCounts)
    apps [].

Local Open Scope js_scope.

Section Build.

(** The runtime and the environment of one run. *)

(** [new URL(s).hostname]; [None] when the constructor throws. *)
Variable hostname : string -> option string.
(** The GitHub API as seen through [fetch]. *)
Variable fetch : string -> response.
(** [a.localeCompare(b)] under the collation of the runtime. *)
Variable localeCompare : string -> string -> Z.
(** [new Date().toISOString()] *)
Variable now : string.
Variable fs : FileSystem.

(** *** fetchGitHubMetadata *)

Definition optField (k : string) (v : option json) : obj :=
  match v with
  | Some x => [(k, x)]
  | None => []
  end.

(** [data.license?.spdx_id || null] *)
Definition licenseOf (data : json) : json :=
  let spdx :=
    match prop data "license" with
    | None | Some JNull => None
    | Some license => prop license "spdx_id"
    end in
  match spdx with
  | Some v => if truthy spdx then v else JNull
  | None => JNull
  end.

(** The object the function returns, with the keys that hold a value
    (a key holding [undefined] is not serialised). *)
Definition metadataOf (data : json) : obj :=
  (optField "stars" (prop data "stargazers_count")
   ++ optField "openIssues" (prop data "open_issues_count")
   ++ optField "forks" (prop data "forks_count")
   ++ optField "lastUpdated" (prop data "updated_at")
   ++ [("license", licenseOf data)])%list.

(** The body of the [try] block. *)
Definition requestMetadata (repoUrl : option json) : M (option obj) :=
  match hostname (toString repoUrl) with
  | None => throw InvalidUrl
  | Some host =>
      if negb (String.eqb host "github.com") then ret None
      else
        match execRepo (toString repoUrl) with
        | None => ret None
        | Some (owner, repo) =>
            let apiUrl :=
              "https://api.github.com/repos/" ++ owner ++ "/" ++ stripGitSuffix repo in
            match fetch apiUrl with
            | NoResponse => throw FetchFailed
            | Response false _ => ret None
            | Response true None => throw (ReadOrParseError apiUrl)
            | Response true (Some JNull) => throw TypeError
            | Response true (Some data) => ret (Some (metadataOf data))
            end
        end
  end.

Definition fetchGitHubMetadata (repoUrl : option json) : M (option obj) :=
  if negb (truthy repoUrl) then ret None
  else
    try_catch (requestMetadata repoUrl)
      (fun error_ => log (MetadataWarning error_) ;;; ret None).

(** *** loadAllApps *)

(** [app.links?.github] *)
Definition linksGithub (app : obj) : option json :=
  match get "links" app with
  | None | Some JNull => None
  | Some links => prop links "github"
  end.

(** [{...app, ...(githubMetadata && {github: githubMetadata})}] *)
Definition indexEntry (app : obj) (githubMetadata : option obj) : obj :=
  match githubMetadata with
  | Some metadata => set "github" (JObj metadata) app
  | None => app
  end.

(** The enrichment step of the loop body. *)
Definition enrich (app : obj) : M (option obj) :=
  if truthy (linksGithub app)
  then log (FetchingMetadata (toString (get "id" app))) ;;;
       fetchGitHubMetadata (linksGithub app)
  else ret None.

(** One iteration of the loop over [appFiles]. *)
Definition loadApp (apps : list obj) (entry : string * option obj) : M (list obj) :=
  let (file, parsed) := entry in
  try_catch
    (match parsed with
     | None => throw (ReadOrParseError file)
     | Some app =>
         githubMetadata <- enrich app ;;
         ret (apps ++ [indexEntry app githubMetadata])%list
     end)
    (fun err => log (AppError file err) ;;; ret apps).

Definition loadAllApps : M (list obj) :=
  for_of (appFiles fs) loadApp [].

(** *** buildProjectIndex *)

Definition filterIncludeOnly (projectConfig : ProjectConfig) (projectApps : list obj) : list obj :=
  match include_only projectConfig with
  | Some ids =>
      if (0 <? List.length ids)%nat
      then filter (fun app => includes ids (get "id" app)) projectApps
      else projectApps
  | None => projectApps
  end.

Definition filterExcludeApps (projectConfig : ProjectConfig) (projectApps : list obj) : list obj :=
  match exclude_apps projectConfig with
  | Some ids =>
      if (0 <? List.length ids)%nat
      then filter (fun app => negb (includes ids (get "id" app))) projectApps
      else projectApps
  | None => projectApps
  end.

Definition filterFeaturedCategories (projectConfig : ProjectConfig) (projectApps : list obj) : list obj :=
  match featured_categories projectConfig with
  | Some ids =>
      if (0 <? List.length ids)%nat
      then filter (fun app => includes ids (get "category" app)) projectApps
      else projectApps
  | None => projectApps
  end.

(** The three [if] blocks in the order of the source. *)
Definition applyFilters (projectConfig : ProjectConfig) (allApps : list obj) : list obj :=
  filterFeaturedCategories projectConfig
    (filterExcludeApps projectConfig
       (filterIncludeOnly projectConfig allApps)).

Definition namespaceCategory (projectId : string)
    (categoryCounts : list (string * countVal)) (cat : obj) : NamespacedCategory :=
  {| nc_id := projectId ++ ":" ++ toString (get "id" cat);
     originalId := get "id" cat;
     nc_project := None;
     count := countOrZero categoryCounts (toString (get "id" cat));
     nc_rest := cat |}.

Definition namespaceApp (projectId : string) (app : obj) : obj :=
  set "category" (JStr (projectId ++ ":" ++ toString (get "category" app))) app.

(** The comparator handed to [toSorted].  Reading [localeCompare] off a
    name that is not a string raises a [TypeError]; the argument is
    converted to a string. *)
Definition compareApps (a b : obj) : completion Z :=
  if truthy (get "featured" a) && negb (truthy (get "featured" b)) then Normal (-1)%Z
  else if negb (truthy (get "featured" a)) && truthy (get "featured" b) then Normal 1%Z
  else
    match get "name" a with
    | Some (JStr name) => Normal (localeCompare name (toString (get "name" b)))
    | _ => Throw TypeError
    end.

(** [toSorted] is a stable sort; with a consistent comparator that does not
    throw, every stable sort returns the same array, here by insertion.  The
    model stands for the engine's sort on that domain only: names that are
    strings and a consistent collation.  Which pairs the engine hands to a
    comparator that throws or is inconsistent, and so what it then throws or
    returns, is its own business. *)
Fixpoint insertSorted (x : obj) (l : list obj) : completion (list obj) :=
  match l with
  | [] => Normal [x]
  | y :: r =>
      match compareApps x y with
      | Throw e => Throw e
      | Normal c =>
          if (c <=? 0)%Z then Normal (x :: y :: r)
          else
            match insertSorted x r with
            | Throw e => Throw e
            | Normal r' => Normal (y :: r')
            end
      end
  end.

Fixpoint toSorted (l : list obj) : completion (list obj) :=
  match l with
  | [] => Normal []
  | x :: r =>
      match toSorted r with
      | Throw e => Throw e
      | Normal r' => insertSorted x r'
      end
  end.

(** [projectConfig.description || ''] *)
Definition descriptionOrEmpty (projectConfig : ProjectConfig) : json :=
  match cfg_description projectConfig with
  | Some d => if truthy (cfg_description projectConfig) then d else JStr ""
  | None => JStr ""
  end.

Definition buildProjectIndex (projectId : string) (projectConfig : ProjectConfig)
    (allApps : list obj) : M (option ProjectIndex) :=
  let projectApps := applyFilters projectConfig allApps in
  let categoriesPath := "projects/" ++ projectId ++ "/categories.json" in
  match assoc projectId (categoryFiles fs) with
  | None =>
      log (CategoriesNotFound projectId categoriesPath) ;;; ret None
  | Some None => throw (ReadOrParseError categoriesPath)
  | Some (Some categoriesData) =>
      let categoryCounts := countCategories projectApps in
      let categories := map (namespaceCategory projectId categoryCounts) categoriesData in
      let projectApps := map (namespaceApp projectId) projectApps in
      sorted <- lift (toSorted projectApps) ;;
      ret (Some {| version := PROJECT_INDEX_VERSION;
                   project := {| pi_id := cfg_id projectConfig;
                                 pi_name := cfg_name projectConfig;
                                 pi_description := descriptionOrEmpty projectConfig |};
                   updated := now;
                   apps := sorted;
                   categories := categories |})
  end.

(** *** buildIndexes *)

Definition mkdirDist : M unit :=
  if distExists fs then ret tt
  else if mkdirSucceeds fs then ret tt
  else throw (MkdirError "dist").

Definition writeFileSync (path : string) (a : artifact) : M unit :=
  fun s =>
    if writeSucceeds fs path
    then (Normal tt, {| console := console s; written := (written s ++ [(path, a)])%list |})
    else (Throw (WriteError path), s).

(** One iteration of the loop over [projectFiles]. *)
Definition buildProject (allApps : list obj) (_ : unit)
    (entry : string * option ProjectConfig) : M unit :=
  let (projectId, parsed) := entry in
  let projectFile := "projects/" ++ projectId ++ "/project.json" in
  try_catch
    (match parsed with
     | None => throw (ReadOrParseError projectFile)
     | Some projectConfig =>
         log (BuildingProject (toString (cfg_name projectConfig))) ;;;
         index <- buildProjectIndex projectId projectConfig allApps ;;
         match index with
         | Some index =>
             let outputPath := "dist/" ++ projectId ++ ".json" in
             writeFileSync outputPath (ProjectArtifact index) ;;;
             log (BuiltIndex outputPath (List.length (apps index)) (List.length (categories index)))
         | None => ret tt
         end
     end)
    (fun err => log (ProjectError projectFile err)).

(** An entry of [categoryData], before its count is attached. *)
Record CategoryEntry := {
  ce_id : string;
  ce_originalId : option json;
  ce_project : string;
  ce_rest : obj
}.

(** The body of [data.categories.forEach]: the set [allCategories] and the
    object [categoryData] grow together. *)
Definition addCategory (projectId : string)
    (acc : list string * list (string * CategoryEntry)) (cat : obj)
  : list string * list (string * CategoryEntry) :=
  let (allCategories, categoryData) := acc in
  let namespacedId := projectId ++ ":" ++ toString (get "id" cat) in
  if existsb (String.eqb namespacedId) allCategories then acc
  else
    ((allCategories ++ [namespacedId])%list,
     (categoryData ++ [(namespacedId,
                        {| ce_id := namespacedId;
                           ce_originalId := get "id" cat;
                           ce_project := projectId;
                           ce_rest := cat |})])%list).

(** One iteration of the loop over [categoryFiles]; nothing catches here. *)
Definition collectCategoryFile
    (acc : list string * list (string * CategoryEntry))
    (entry : string * option (list obj))
  : M (list string * list (string * CategoryEntry)) :=
  let (projectId, parsed) := entry in
  match parsed with
  | None => throw (ReadOrParseError ("projects/" ++ projectId ++ "/categories.json"))
  | Some data => ret (fold_left (addCategory projectId) data acc)
  end.

Definition withCount (categoryCounts : list (string * countVal)) (cat : CategoryEntry)
  : NamespacedCategory :=
  {| nc_id := ce_id cat;
     originalId := ce_originalId cat;
     nc_project := Some (ce_project cat);
     count := countOrZero categoryCounts (toString (ce_originalId cat));
     nc_rest := ce_rest cat |}.

(** The second half of [buildIndexes]. *)
Definition buildMasterIndex (allApps : list obj) : M unit :=
  log BuildingMaster ;;;
  collected <- for_of (categoryFiles fs) collectCategoryFile ([], []) ;;
  let categoryData := snd collected in
  let categoryCounts := countCategories allApps in
  let masterCategories := map (withCount categoryCounts) (map snd categoryData) in
  sorted <- lift (toSorted allApps) ;;
  let masterIndex :=
    {| m_version := MASTER_INDEX_VERSION;
       m_updated := now;
       m_apps := sorted;
       m_categories := masterCategories |} in
  writeFileSync "dist/index.json" (MasterArtifact masterIndex) ;;;
  log (BuiltIndex "dist/index.json" (List.length (m_apps masterIndex)) (List.length masterCategories)) ;;;
  log BuildComplete.

Definition buildIndexes : M unit :=
  mkdirDist ;;;
  log LoadingApps ;;;
  allApps <- loadAllApps ;;
  log (LoadedApps (List.length allApps)) ;;;
  for_of (projectFiles fs) (buildProject allApps) tt ;;;
  buildMasterIndex allApps.

(** [buildIndexes().catch(console.error)] and the exit status of the
    process: zero unless a rejection is left unhandled. *)
Definition main : Z * effects :=
  match try_catch buildIndexes (fun e => log (Uncaught e)) noEffects with
  | (Normal _, s) => (0%Z, s)
  | (Throw _, s) => (1%Z, s)
  end.

End Build.

(** ** Reference instances of the runtime

    [new URL] and [localeCompare] belong to the runtime, not to the script.
    The functions above take them as parameters; the two instances below fix
    them on the inputs the examples use: absolute [http(s)] URLs with a
    registered-name host, and printable ASCII names under the root
    collation. *)

Fixpoint takeUntil (stop : ascii -> bool) (s : string) : string * string :=
  match s with
  | EmptyString => (EmptyString, EmptyString)
  | String c r =>
      if stop c then (EmptyString, s)
      else let (run, rest) := takeUntil stop r in (String c run, rest)
  end.

Definition isOneOf (cs : string) (c : ascii) : bool :=
  existsb (Ascii.eqb c) (list_ascii_of_string cs).

Definition lowerAscii (c : ascii) : ascii :=
  let n := nat_of_ascii c in
  if ((65 <=? n) && (n <=? 90))%nat then ascii_of_nat (n + 32) else c.

(** [s.toLowerCase()] on ASCII text. *)
Fixpoint toLowerCase (s : string) : string :=
  match s with
  | EmptyString => EmptyString
  | String c r => String (lowerAscii c) (toLowerCase r)
  end.

(** The text after the last [@] of an authority, or all of it. *)
Fixpoint afterUserinfo (s : string) : string :=
  match s with
  | EmptyString => EmptyString
  | String c r =>
      let (_, rest) := takeUntil (isOneOf "@") r in
      match rest with
      | EmptyString => if isOneOf "@" c then r else s
      | String _ _ => afterUserinfo r
      end
  end.

(** The host of [scheme://userinfo@host:port/...] for the two web schemes,
    lower-cased; any other text makes the constructor throw. *)
Definition httpHostname (s : string) : option string :=
  let afterScheme :=
    match stripPrefix "https://" s with
    | Some r => Some r
    | None => stripPrefix "http://" s
    end in
  match afterScheme with
  | None => None
  | Some r =>
      let (authority, _) := takeUntil (isOneOf "/\?#") r in
      let (host, _) := takeUntil (isOneOf ":") (afterUserinfo authority) in
      if isEmpty host then None else Some (toLowerCase host)
  end.

(** Printable ASCII in the order of the root collation: space, punctuation,
    symbols, currency, digits, letters (the double quote is given by its
    code, 34). *)
Definition collationOrder : list ascii :=
  list_ascii_of_string
    (" _-,;:!?.'" ++ String (ascii_of_nat 34)
       "()[]{}@*/\&#%`^+<=>|~$0123456789abcdefghijklmnopqrstuvwxyz").

Fixpoint indexOf (c : ascii) (l : list ascii) : nat :=
  match l with
  | [] => 0
  | x :: r => if Ascii.eqb c x then 0 else S (indexOf c r)
  end.

(** First-level weight: the rank of the letter regardless of case.  A byte
    outside printable ASCII is ranked behind the letters by its code. *)
Definition primaryWeight (c : ascii) : nat :=
  if isOneOf (string_of_list_ascii collationOrder) (lowerAscii c)
  then indexOf (lowerAscii c) collationOrder
  else 100 + nat_of_ascii c.

(** Third-level weight: lower case before upper case. *)
Definition caseWeight (c : ascii) : nat :=
  let n := nat_of_ascii c in
  if ((65 <=? n) && (n <=? 90))%nat then 1 else 0.

Fixpoint lexCompare (a b : list nat) : comparison :=
  match a, b with
  | [], [] => Eq
  | [], _ :: _ => Lt
  | _ :: _, [] => Gt
  | x :: a', y :: b' =>
      match Nat.compare x y with
      | Eq => lexCompare a' b'
      | c => c
      end
  end.

(** [a.localeCompare(b)] on printable ASCII: first-level weights decide,
    case breaks ties. *)
Definition asciiCollate (a b : string) : Z :=
  let weights (w : ascii -> nat) (s : string) := map w (list_ascii_of_string s) in
  match lexCompare (weights primaryWeight a) (weights primaryWeight b) with
  | Lt => (-1)%Z
  | Gt => 1%Z
  | Eq =>
      match lexCompare (weights caseWeight a) (weights caseWeight b) with
      | Lt => (-1)%Z
      | Gt => 1%Z
      | Eq => 0%Z
      end
  end.

(** ** Properties named by the specification *)

(** The text of a record's name or category as the script uses it. *)
Definition nameOf (app : obj) : string := toString (get "name" app).
Definition categoryOf (app : obj) : string := toString (get "category" app).
Definition featured (app : obj) : bool := truthy (get "featured" app).

(** Every app's category is the id of one of the listed categories. *)
Definition categoriesCover (idx : ProjectIndex) : Prop :=
  forall app, In app (apps idx) ->
    exists c, In c (categories idx) /\ get "category" app = Some (JStr (nc_id c)).

(** Adjacent pairs: featured first, then a name order [le]. *)
Definition adjacentOrdered (le : string -> string -> Prop) (l : list obj) : Prop :=
  forall i a b,
    nth_error l i = Some a ->
    nth_error l (S i) = Some b ->
    (featured b = true -> featured a = true) /\
    (featured a = featured b -> le (nameOf a) (nameOf b)).

(** The order the specification words: lower-cased names by code unit. *)
Definition lowerCaseLe (a b : string) : Prop :=
  String.leb (toLowerCase a) (toLowerCase b) = true.

(** The order the comparator asks for. *)
Definition collationLe (localeCompare : string -> string -> Z) (a b : string) : Prop :=
  (localeCompare a b <= 0)%Z.

(** What the comparator of [toSorted] returns when it returns. *)
Definition comparatorValue (localeCompare : string -> string -> Z) (a b : obj) : Z :=
  if featured a && negb (featured b) then (-1)%Z
  else if negb (featured a) && featured b then 1%Z
  else localeCompare (nameOf a) (nameOf b).

(** The order on records that comparator stands for. *)
Definition appLe (localeCompare : string -> string -> Z) (a b : obj) : Prop :=
  (featured b = true -> featured a = true) /\
  (featured a = featured b -> collationLe localeCompare (nameOf a) (nameOf b)).

(** [l] is [l'] with some elements left out, order kept. *)
Inductive Subseq {A : Type} : list A -> list A -> Prop :=
| Subseq_nil : Subseq [] []
| Subseq_skip x l l' : Subseq l l' -> Subseq l (x :: l')
| Subseq_keep x l l' : Subseq l l' -> Subseq (x :: l) (x :: l').

(** The number of apps whose category, read as a property key, is [k]. *)
Definition appsInCategory (k : string) (apps : list obj) : nat :=
  List.length (filter (fun app => String.eqb (categoryOf app) k) apps).

(** A name that is a string, as the comparator needs it. *)
Definition hasStringName (app : obj) : Prop :=
  exists name, get "name" app = Some (JStr name).

(** The master index a run wrote last, if any. *)
Fixpoint lastMaster (w : list (string * artifact)) : option MasterIndex :=
  match w with
  | [] => None
  | (_, a) :: r =>
      match lastMaster r with
      | Some m => Some m
      | None => match a with MasterArtifact m => Some m | ProjectArtifact _ => None end
      end
  end.

(** ** Inputs for the examples *)

Definition noFetch : string -> response := fun _ => NoResponse.

Definition emptyFs : FileSystem :=
  {| appFiles := []; projectFiles := []; categoryFiles := [];
     distExists := true; mkdirSucceeds := true; writeSucceeds := fun _ => true |}.

Definition plainConfig (id name : string) : ProjectConfig :=
  {| cfg_id := Some (JStr id); cfg_name := Some (JStr name);
     cfg_description := None;
     include_only := None; exclude_apps := None; featured_categories := None |}.

Definition evilApp : obj :=
  [ ("id", JStr "evil"); ("name", JStr "Evil");
    ("category", JStr "client");
    ("links", JObj [("github", JStr "https://evil.com/github.com/foo/bar")]) ].

(** A record that brings a [github] field of its own and no link. *)
Definition preEnrichedApp : obj :=
  [ ("id", JStr "alpha"); ("name", JStr "Alpha");
    ("category", JStr "client"); ("github", JNum 1) ].

Definition moonlightApp : obj :=
  [ ("id", JStr "moonlight-qt"); ("name", JStr "Moonlight");
    ("category", JStr "client"); ("featured", JBool true);
    ("links", JObj [("github", JStr "https://github.com/moonlight-stream/moonlight-qt.git")]) ].

Definition moonlightApi : string -> response :=
  fun url =>
    if String.eqb url "https://api.github.com/repos/moonlight-stream/moonlight-qt"
    then Response true (Some (JObj [("stargazers_count", JNum 7); ("license", JNull)]))
    else Response false None.

Definition buildTime : string := "2026-01-01T00:00:00.000Z".

Definition sunshineConfig : ProjectConfig := plainConfig "sunshine" "Sunshine".

(** A config whose [id] is not the name of its directory. *)
Definition renamedConfig : ProjectConfig := plainConfig "sunshine-host" "Sunshine".

Definition sunshineCategories : list obj :=
  [ [("id", JStr "client"); ("name", JStr "Clients")];
    [("id", JStr "tool"); ("name", JStr "Tools")] ].

Definition zetaApp : obj :=
  [ ("id", JStr "zeta"); ("name", JStr "Zeta");
    ("category", JStr "client"); ("featured", JBool true) ].

Definition alphaApp : obj :=
  [ ("id", JStr "alpha"); ("name", JStr "Alpha");
    ("category", JStr "tool"); ("featured", JBool false) ].

(** An app filed under a category the project does not define. *)
Definition orphanApp : obj :=
  [ ("id", JStr "orphan"); ("name", JStr "Orphan"); ("category", JStr "game") ].

(** Two names that collation and code units order differently. *)
Definition guestApp : obj :=
  [ ("id", JStr "guest"); ("name", JStr "7th Guest"); ("category", JStr "client") ].
Definition bracketApp : obj :=
  [ ("id", JStr "viewer"); ("name", JStr "[Beta] Viewer"); ("category", JStr "client") ].

Definition sunshineFs : FileSystem :=
  {| appFiles := [("apps/zeta.json", Some zetaApp); ("apps/alpha.json", Some alphaApp)];
     projectFiles := [("sunshine", Some sunshineConfig)];
     categoryFiles := [("sunshine", Some sunshineCategories)];
     distExists := true; mkdirSucceeds := true; writeSucceeds := fun _ => true |}.

(** [dist/] is missing and cannot be created. *)
Definition noDistFs : FileSystem :=
  {| appFiles := appFiles sunshineFs;
     projectFiles := projectFiles sunshineFs;
     categoryFiles := categoryFiles sunshineFs;
     distExists := false; mkdirSucceeds := false; writeSucceeds := fun _ => true |}.

(** The project index cannot be written, the master index can. *)
Definition lockedProjectFs : FileSystem :=
  {| appFiles := appFiles sunshineFs;
     projectFiles := projectFiles sunshineFs;
     categoryFiles := categoryFiles sunshineFs;
     distExists := true; mkdirSucceeds := true;
     writeSucceeds := fun path => negb (String.eqb path "dist/sunshine.json") |}.

(** A second project whose categories.json is not valid JSON. *)
Definition malformedCategoriesFs : FileSystem :=
  {| appFiles := appFiles sunshineFs;
     projectFiles := [("sunshine", Some sunshineConfig);
                      ("beta", Some (plainConfig "beta" "Beta"))];
     categoryFiles := [("sunshine", Some sunshineCategories); ("beta", None)];
     distExists := true; mkdirSucceeds := true; writeSucceeds := fun _ => true |}.

(** A project that defines a category called [constructor]. *)
Definition constructorFs : FileSystem :=
  {| appFiles := appFiles sunshineFs;
     projectFiles := [("sunshine", Some sunshineConfig)];
     categoryFiles :=
       [("sunshine",
         Some [ [("id", JStr "client"); ("name", JStr "Clients")];
                [("id", JStr "constructor"); ("name", JStr "Constructors")] ])];
     distExists := true; mkdirSucceeds := true; writeSucceeds := fun _ => true |}.

(** A config with all three filter lists. *)
Definition filteringConfig : ProjectConfig :=
  {| cfg_id := Some (JStr "sunshine"); cfg_name := Some (JStr "Sunshine");
     cfg_description := Some (JStr "Game stream host");
     include_only := Some [JStr "zeta"; JStr "alpha"; JStr "orphan"];
     exclude_apps := Some [JStr "zeta"];
     featured_categories := Some [JStr "tool"] |}.

(** ** Helpers for stating further properties *)

(** No slash in [s]. *)
Fixpoint slashFree (s : string) : bool :=
  match s with
  | EmptyString => true
  | String c r => negb (Ascii.eqb c slash) && slashFree r
  end.

(** Empty, or beginning with a slash. *)
Definition endsSegment (rest : string) : bool :=
  match rest with
  | EmptyString => true
  | String c _ => Ascii.eqb c slash
  end.

(** The records of the app files that parse, in discovery order. *)
Definition parsedApps (files : list (string * option obj)) : list obj :=
  flat_map (fun entry => match snd entry with Some app => [app] | None => [] end) files.

(** Every category definition of every category file that parses, in
    reading order, with the directory it belongs to. *)
Definition categoryDefinitions (files : list (string * option (list obj)))
  : list (string * obj) :=
  flat_map
    (fun entry =>
       match snd entry with
       | Some data => map (pair (fst entry)) data
       | None => []
       end)
    files.

Definition namespacedIdOf (d : string * obj) : string :=
  fst d ++ ":" ++ toString (get "id" (snd d)).

(** [i < j] in the list, whatever lies between. *)
Definition comesBefore {A} (l : list A) (a b : A) : Prop :=
  exists i j, i < j /\ nth_error l i = Some a /\ nth_error l j = Some b.

(** ** scripts/validate.cjs *)

(** One entry of [validate.errors]. *)
Record ajvError := {
  instancePath : string;
  message : string
}.

(** What can escape [validateFiles]: nothing in it is caught except the
    [JSON.parse] of a data file. *)
Inductive vexn : Type :=
| ReadFailed (path : string)        (* readFileSync throws *)
| SchemaNotJson (path : string)     (* JSON.parse of the schema text throws *)
| SchemaRejected (path : string).   (* ajv.compile throws *)

(** One constructor per console call of the validator. *)
Inductive vline : Type :=
| Validating (label : string)
| NoFilesFound (pattern : string)
| FileValid (file : string)
| FileInvalidJson (file : string)
| FileFailed (file : string)
| FileError (path message : string)
| BlankLine
| AllValidationsPassed
| ValidationFailed
| ValidateError (e : vexn).

(** The files and the schema compiler the validator sees.  The script has
    one Ajv instance for the whole run, and an instance remembers the schemas
    it has compiled: [compileSchema earlier schema] is [ajv.compile(schema)]
    on that instance once it has compiled the schemas [earlier], in that
    order, and is [None] when the call throws (an invalid schema, or one
    whose [$id] the instance already holds).  A validator compiled by Ajv
    answers with its list of errors, which is empty exactly when the data is
    valid. *)
Record ValidateEnv := {
  (* None: readFileSync throws; Some None: text that JSON.parse rejects *)
  readFile : string -> option (option json);
  compileSchema : list json -> json -> option (json -> list ajvError);
  (* the paths a glob pattern matches *)
  globFiles : string -> list string
}.

(** The lines of the loop over [validate.errors]; an empty instance path is
    printed as a slash. *)
Definition reportErrors (errors : list ajvError) : list vline :=
  map (fun error =>
         FileError (if isEmpty (instancePath error) then "/" else instancePath error)
           (message error))
    errors.

(** One iteration of the loop over the files: the new [allValid] and the
    console, or what was thrown. *)
Definition validateFile (env : ValidateEnv) (validate : json -> list ajvError)
    (allValid : bool) (file : string) (out : list vline)
  : (vexn + bool) * list vline :=
  match readFile env file with
  | None => (inl (ReadFailed file), out)
  | Some None => (inr false, (out ++ [FileInvalidJson file])%list)
  | Some (Some data) =>
      match validate data with
      | [] => (inr allValid, (out ++ [FileValid file])%list)
      | errors => (inr false, (out ++ [FileFailed file] ++ reportErrors errors)%list)
      end
  end.

Fixpoint validateEach (env : ValidateEnv) (validate : json -> list ajvError)
    (files : list string) (allValid : bool) (out : list vline)
  : (vexn + bool) * list vline :=
  match files with
  | [] => (inr allValid, out)
  | file :: rest =>
      match validateFile env validate allValid file out with
      | (inl e, out') => (inl e, out')
      | (inr allValid', out') => validateEach env validate rest allValid' out'
      end
  end.

Definition validateFiles (env : ValidateEnv) (compiled : list json)
    (schemaPath pattern label : string) (out : list vline)
  : (vexn + bool) * list vline * list json :=
  let out := (out ++ [Validating label])%list in
  match readFile env schemaPath with
  | None => (inl (ReadFailed schemaPath), out, compiled)
  | Some None => (inl (SchemaNotJson schemaPath), out, compiled)
  | Some (Some schema) =>
      match compileSchema env compiled schema with
      | None => (inl (SchemaRejected schemaPath), out, compiled)
      | Some validate =>
          match globFiles env pattern with
          | [] => (inr true, (out ++ [NoFilesFound pattern])%list,
                   (compiled ++ [schema])%list)
          | files =>
              (validateEach env validate files true out,
               (compiled ++ [schema])%list)
          end
      end
  end.

(** The three entries of [validations]: schema, pattern, label. *)
Definition validations : list (string * string * string) :=
  [ ("schemas/app.schema.json", "apps/**/*.json", "app definitions");
    ("schemas/project.schema.json", "projects/**/project.json", "project configs");
    ("schemas/categories.schema.json", "projects/**/categories.json", "category files") ].

(** The loop of [main] over the validations; the schemas the instance has
    compiled are carried from one validation to the next. *)
Fixpoint runValidations (env : ValidateEnv) (vs : list (string * string * string))
    (allValid : bool) (out : list vline) (compiled : list json)
  : (vexn + bool) * list vline * list json :=
  match vs with
  | [] => (inr allValid, out, compiled)
  | (schema, pattern, label) :: rest =>
      match validateFiles env compiled schema pattern label out with
      | (inl e, out', compiled') => (inl e, out', compiled')
      | (inr result, out', compiled') =>
          runValidations env rest (if result then allValid else false) out' compiled'
      end
  end.

(** [main().catch(...)]: the exit status and the console.  The instance is
    fresh when [main] starts. *)
Definition validateMain (env : ValidateEnv) : Z * list vline :=
  match runValidations env validations true [] [] with
  | (inl e, out, _) => (1%Z, (out ++ [ValidateError e])%list)
  | (inr true, out, _) => (0%Z, (out ++ [BlankLine; AllValidationsPassed])%list)
  | (inr false, out, _) => (1%Z, (out ++ [BlankLine; ValidationFailed])%list)
  end.

(** A data file passes when it can be read, parses and has no errors. *)
Definition filePasses (env : ValidateEnv) (validate : json -> list ajvError)
    (file : string) : bool :=
  match readFile env file with
  | Some (Some data) => match validate data with [] => true | _ => false end
  | _ => false
  end.

Definition fileReadable (env : ValidateEnv) (file : string) : bool :=
  match readFile env file with
  | Some _ => true
  | None => false
  end.

(** The verdict line a file gets. *)
Definition verdictOf (env : ValidateEnv) (validate : json -> list ajvError)
    (file : string) : vline :=
  match readFile env file with
  | Some (Some data) =>
      match validate data with [] => FileValid file | _ => FileFailed file end
  | _ => FileInvalidJson file
  end.

Definition isVerdict (l : vline) : bool :=
  match l with
  | FileValid _ | FileInvalidJson _ | FileFailed _ => true
  | _ => false
  end.

(** The first definition, in reading order, that namespaces to [id]. *)
Definition firstDefinition (ds : list (string * obj)) (id : string)
  : option (string * obj) :=
  find (fun d => String.eqb (namespacedIdOf d) id) ds.

(** The step of the master's category loop on one tagged definition. *)
Definition collectStep (acc : list string * list (string * CategoryEntry))
    (d : string * obj) : list string * list (string * CategoryEntry) :=
  addCategory (fst d) acc (snd d).

(** What [allCategories] and [categoryData] hold once the definitions [ds]
    have been read. *)
Definition collectedFrom (ds : list (string * obj))
    (acc : list string * list (string * CategoryEntry)) : Prop :=
  fst acc = map fst (snd acc) /\
  NoDup (fst acc) /\
  (forall d, In d ds -> In (namespacedIdOf d) (fst acc)) /\
  (forall k e, In (k, e) (snd acc) ->
     ce_id e = k /\
     ce_originalId e = get "id" (ce_rest e) /\
     firstDefinition ds k = Some (ce_project e, ce_rest e)).

(** The validations [vs] all pass on an instance that has compiled
    [compiled]: each schema is read and compiled, in turn, on the instance as
    the ones before it left it, and every file its pattern matches passes. *)
Fixpoint validationsPass (env : ValidateEnv) (compiled : list json)
    (vs : list (string * string * string)) : bool :=
  match vs with
  | [] => true
  | (schemaPath, pattern, _) :: rest =>
      match readFile env schemaPath with
      | Some (Some schema) =>
          match compileSchema env compiled schema with
          | Some validate =>
              forallb (filePasses env validate) (globFiles env pattern)
              && validationsPass env (compiled ++ [schema])%list rest
          | None => false
          end
      | _ => false
      end
  end.

(** The property [k] of the object a [NamespacedCategory] stands for, for a
    key other than [count] (whose value is [count c]): the keys the literal
    writes, then the keys of the spread definition. *)
Definition categoryField (c : NamespacedCategory) (k : string) : option json :=
  if String.eqb k "id" then Some (JStr (nc_id c))
  else if String.eqb k "originalId" then originalId c
  else if String.eqb k "project"
       then match nc_project c with
            | Some projectId => Some (JStr projectId)
            | None => get "project" (nc_rest c)
            end
  else get k (nc_rest c).

(** Whether an app passes the three filters of a config, read as one
    test. *)
Definition passesIncludeOnly (projectConfig : ProjectConfig) (app : obj) : bool :=
  match include_only projectConfig with
  | Some (id :: ids) => includes (id :: ids) (get "id" app)
  | _ => true
  end.

Definition passesExcludeApps (projectConfig : ProjectConfig) (app : obj) : bool :=
  match exclude_apps projectConfig with
  | Some (id :: ids) => negb (includes (id :: ids) (get "id" app))
  | _ => true
  end.

Definition passesFeaturedCategories (projectConfig : ProjectConfig) (app : obj) : bool :=
  match featured_categories projectConfig with
  | Some (id :: ids) => includes (id :: ids) (get "category" app)
  | _ => true
  end.

Definition survives (projectConfig : ProjectConfig) (app : obj) : bool :=
  passesIncludeOnly projectConfig app
  && passesExcludeApps projectConfig app
  && passesFeaturedCategories projectConfig app.

(** The address of the repository endpoint. *)
Definition repositoryEndpoint (owner repo : string) : string :=
  "https://api.github.com/repos/" ++ owner ++ "/" ++ repo.

(** ** Inputs for the further examples *)

(** Project [beta] has a config but no category file. *)
Definition missingCategoriesFs : FileSystem :=
  {| appFiles := appFiles sunshineFs;
     projectFiles := [("sunshine", Some sunshineConfig);
                      ("beta", Some (plainConfig "beta" "Beta"))];
     categoryFiles := [("sunshine", Some sunshineCategories)];
     distExists := true; mkdirSucceeds := true; writeSucceeds := fun _ => true |}.

(** The category [client] is defined twice. *)
Definition duplicateCategoryFs : FileSystem :=
  {| appFiles := appFiles sunshineFs;
     projectFiles := [("sunshine", Some sunshineConfig)];
     categoryFiles :=
       [("sunshine",
         Some [ [("id", JStr "client"); ("name", JStr "Clients")];
                [("id", JStr "client"); ("name", JStr "Players")] ])];
     distExists := true; mkdirSucceeds := true; writeSucceeds := fun _ => true |}.

(** A category definition that brings a [project] field of its own. *)
Definition taggedCategoryFs : FileSystem :=
  {| appFiles := appFiles sunshineFs;
     projectFiles := [("sunshine", Some sunshineConfig)];
     categoryFiles :=
       [("sunshine",
         Some [ [("id", JStr "client"); ("name", JStr "Clients");
                 ("project", JStr "other")] ])];
     distExists := true; mkdirSucceeds := true; writeSucceeds := fun _ => true |}.

(** Two schemas with the same [$id]. *)
Definition sameSchemaId (a b : json) : bool :=
  match prop a "$id", prop b "$id" with
  | Some (JStr x), Some (JStr y) => String.eqb x y
  | _, _ => false
  end.

(** A schema compiler that asks for a string [id], and refuses a schema
    whose [$id] the instance already holds. *)
Definition requireId (earlier : list json) (schema : json)
  : option (json -> list ajvError) :=
  if existsb (sameSchemaId schema) earlier then None
  else
  Some (fun data =>
          match prop data "id" with
          | Some (JStr _) => []
          | _ => [ {| instancePath := ""; message := "must have a string id" |} ]
          end).

(** A tree with one valid app, one app without id, one file that is not
    JSON, and a project with config and categories. *)
Definition sampleTree : ValidateEnv :=
  {| readFile := fun path =>
       if String.eqb path "apps/zeta.json" then Some (Some (JObj zetaApp))
       else if String.eqb path "apps/nameless.json" then Some (Some (JObj []))
       else if String.eqb path "apps/broken.json" then Some None
       else if String.eqb path "apps/locked.json" then None
       else Some (Some (JObj [("id", JStr path)]));
     compileSchema := requireId;
     globFiles := fun pattern =>
       if String.eqb pattern "apps/**/*.json"
       then ["apps/nameless.json"; "apps/broken.json"; "apps/zeta.json"]
       else if String.eqb pattern "projects/**/project.json"
       then ["projects/sunshine/project.json"]
       else if String.eqb pattern "projects/**/categories.json"
       then ["projects/sunshine/categories.json"]
       else [] |}.

(** The same tree with an app file that cannot be read in the middle. *)
Definition lockedTree : ValidateEnv :=
  {| readFile := readFile sampleTree;
     compileSchema := requireId;
     globFiles := fun pattern =>
       if String.eqb pattern "apps/**/*.json"
       then ["apps/broken.json"; "apps/locked.json"; "apps/zeta.json"]
       else globFiles sampleTree pattern |}.

(** A tree in which every file validates, but whose three schema files
    declare one and the same [$id]. *)
Definition sameIdTree : ValidateEnv :=
  {| readFile := fun path =>
       if String.eqb path "apps/zeta.json" then Some (Some (JObj zetaApp))
       else if (String.eqb path "schemas/app.schema.json"
                || String.eqb path "schemas/project.schema.json"
                || String.eqb path "schemas/categories.schema.json")%bool
       then Some (Some (JObj [("$id", JStr "https://example.org/schema.json")]))
       else Some (Some (JObj [("id", JStr path)]));
     compileSchema := requireId;
     globFiles := fun pattern =>
       if String.eqb pattern "apps/**/*.json" then ["apps/zeta.json"]
       else globFiles sampleTree pattern |}.

(** A tree in which everything validates. *)
Definition cleanTree : ValidateEnv :=
  {| readFile := readFile sampleTree;
     compileSchema := requireId;
     globFiles := fun pattern =>
       if String.eqb pattern "apps/**/*.json" then ["apps/zeta.json"]
       else globFiles sampleTree pattern |}.

(** ** Objects *)

Lemma get_set_same (k : string) (v : json) (o : obj) :
  get k (set k v o) = Some v.
Proof.
  induction o as [|[k' v'] r IH]; simpl.
  - now rewrite String.eqb_refl.
  - destruct (String.eqb k k') eqn:E; simpl.
    + now rewrite String.eqb_refl.
    + now rewrite E.
Qed.

Lemma get_set_other (k k' : string) (v : json) (o : obj) :
  k' <> k -> get k' (set k v o) = get k' o.
Proof.
  intros Hne. induction o as [|[k0 v0] r IH]; simpl.
  - destruct (String.eqb_spec k' k); [contradiction | reflexivity].
  - destruct (String.eqb_spec k k0) as [->|Hk]; simpl.
    + destruct (String.eqb_spec k' k0); [contradiction | reflexivity].
    + destruct (String.eqb_spec k' k0); [reflexivity | exact IH].
Qed.

(** ** The loader and the enrichment client *)

Section Loader.

Variable hostname : string -> option string.
Variable fetch : string -> response.

(** The client never throws: whatever goes wrong inside is logged. *)
Lemma fetchGitHubMetadata_returns (repoUrl : option json) (s : effects) :
  exists r s', fetchGitHubMetadata hostname fetch repoUrl s = (Normal r, s').
Proof.
  unfold fetchGitHubMetadata.
  destruct (negb (truthy repoUrl)); [now eexists _, _|].
  unfold try_catch.
  destruct (requestMetadata hostname fetch repoUrl s) as [[r|e] s1] eqn:E.
  - now eexists _, _.
  - unfold bind, log, ret. now eexists _, _.
Qed.

Lemma fetchGitHubMetadata_other_host (repoUrl : option json) (s : effects) :
  hostname (toString repoUrl) <> Some "github.com" ->
  exists s', fetchGitHubMetadata hostname fetch repoUrl s = (Normal None, s').
Proof.
  intros Hhost. unfold fetchGitHubMetadata.
  destruct (negb (truthy repoUrl)); [now eexists|].
  unfold try_catch, requestMetadata.
  destruct (hostname (toString repoUrl)) as [host|] eqn:E.
  - destruct (String.eqb_spec host "github.com") as [->|Hne]; [congruence|].
    simpl. now eexists.
  - unfold throw, bind, log, ret. now eexists.
Qed.

Lemma enrich_returns (app : obj) (s : effects) :
  exists r s', enrich hostname fetch app s = (Normal r, s').
Proof.
  unfold enrich. destruct (truthy (linksGithub app)); [|now eexists _, _].
  unfold bind, log.
  apply fetchGitHubMetadata_returns.
Qed.

(** A parsed record is appended, merged with what enrichment returned. *)
Lemma loadApp_parsed (apps : list obj) (file : string) (app : obj) (s : effects) :
  exists githubMetadata s',
    enrich hostname fetch app s = (Normal githubMetadata, s') /\
    loadApp hostname fetch apps (file, Some app) s
    = (Normal (apps ++ [indexEntry app githubMetadata])%list, s').
Proof.
  destruct (enrich_returns app s) as (r & s' & E).
  exists r, s'. split; [exact E|].
  unfold loadApp, try_catch, bind. now rewrite E.
Qed.

(** A file that cannot be read or parsed is logged and left out. *)
Lemma loadApp_malformed (apps : list obj) (file : string) (s : effects) :
  loadApp hostname fetch apps (file, None) s
  = (Normal apps,
     {| console := (console s ++ [AppError file (ReadOrParseError file)])%list;
        written := written s |}).
Proof. reflexivity. Qed.

(** C2. A link whose parsed host is anything but [github.com] (or that
    does not parse at all) makes [fetchGitHubMetadata] return null, and the
    loader then appends the record as it was read, with no [github] field
    added. *)
Theorem untrusted_host_is_not_enriched (repoUrl : option json) :
  hostname (toString repoUrl) <> Some "github.com" ->
  (forall s, exists s',
      fetchGitHubMetadata hostname fetch repoUrl s = (Normal None, s')) /\
  (forall apps file app s,
      linksGithub app = repoUrl ->
      exists s',
        loadApp hostname fetch apps (file, Some app) s
        = (Normal (apps ++ [app])%list, s')).
Proof.
  intros Hhost. split.
  - intros s. now apply fetchGitHubMetadata_other_host.
  - intros apps file app s Hlink.
    destruct (loadApp_parsed apps file app s) as (r & s' & E & L).
    exists s'. rewrite L.
    assert (r = None) as ->; [|reflexivity].
    unfold enrich in E. rewrite Hlink in E.
    destruct (truthy repoUrl).
    + unfold bind, log in E.
      match type of E with
      | fetchGitHubMetadata _ _ _ ?s0 = _ =>
          destruct (fetchGitHubMetadata_other_host repoUrl s0 Hhost) as (s1 & E1)
      end.
      rewrite E1 in E. now inversion E.
    + now inversion E.
Qed.

(** C9, as the code has it. Every field of a parsed record other than
    [github] reaches the loader's entry unchanged.  When enrichment
    returned a result the entry's [github] key holds it; when it returned
    null the entry is the record itself.  So a record without a [github]
    field of its own gets one exactly when enrichment returned a result. *)
Theorem loader_preserves_fields (apps : list obj) (file : string) (app : obj)
    (s : effects) :
  exists githubMetadata s',
    enrich hostname fetch app s = (Normal githubMetadata, s') /\
    loadApp hostname fetch apps (file, Some app) s
    = (Normal (apps ++ [indexEntry app githubMetadata])%list, s') /\
    (forall k, k <> "github" ->
               get k (indexEntry app githubMetadata) = get k app) /\
    (forall metadata, githubMetadata = Some metadata ->
               get "github" (indexEntry app githubMetadata) = Some (JObj metadata)) /\
    (githubMetadata = None -> indexEntry app githubMetadata = app) /\
    (get "github" app = None ->
       (get "github" (indexEntry app githubMetadata) <> None
        <-> githubMetadata <> None)).
Proof.
  destruct (loadApp_parsed apps file app s) as (r & s' & E & L).
  exists r, s'. split; [exact E|]. split; [exact L|].
  split; [|split; [|split]].
  - intros k Hk. destruct r; simpl; [now apply get_set_other | reflexivity].
  - intros metadata ->. simpl. apply get_set_same.
  - now intros ->.
  - intros Hnone. destruct r; simpl.
    + rewrite get_set_same. split; discriminate.
    + rewrite Hnone. split; intros H; now elim H.
Qed.

End Loader.

(** Witness for C2: the scenario of the specification. *)
Lemma untrusted_host_is_not_enriched_witness :
  httpHostname "https://evil.com/github.com/foo/bar" <> Some "github.com" /\
  (exists s',
     fetchGitHubMetadata httpHostname moonlightApi
       (Some (JStr "https://evil.com/github.com/foo/bar")) noEffects
     = (Normal None, s')) /\
  (exists s',
     loadApp httpHostname moonlightApi [] ("apps/evil.json", Some evilApp) noEffects
     = (Normal [evilApp], s')).
Proof.
  assert (H : httpHostname "https://evil.com/github.com/foo/bar" <> Some "github.com")
    by (vm_compute; discriminate).
  split; [exact H|].
  pose proof (untrusted_host_is_not_enriched httpHostname moonlightApi
                (Some (JStr "https://evil.com/github.com/foo/bar")) H) as [F L].
  split.
  - apply F.
  - apply (L [] "apps/evil.json" evilApp noEffects). reflexivity.
Defined.

(** C9, as stated, fails: the record [preEnrichedApp] has no link, so
    enrichment returns null, and yet the loader's entry carries a [github]
    key. *)
Lemma loader_github_key_counterexample :
  exists entry s',
    enrich httpHostname noFetch preEnrichedApp noEffects = (Normal None, s') /\
    loadApp httpHostname noFetch [] ("apps/alpha.json", Some preEnrichedApp) noEffects
    = (Normal [entry], s') /\
    get "github" entry = Some (JNum 1).
Proof.
  exists preEnrichedApp, noEffects. repeat split.
Qed.

(** Witness for C9: a record with a link to a repository that answers. *)
Lemma loader_preserves_fields_witness :
  get "github" moonlightApp = None /\
  exists githubMetadata s',
    enrich httpHostname moonlightApi moonlightApp noEffects = (Normal githubMetadata, s') /\
    githubMetadata <> None.
Proof.
  split; [reflexivity|].
  destruct (loader_preserves_fields httpHostname moonlightApi [] "apps/m.json"
              moonlightApp noEffects)
    as (r & s' & E & _ & _ & _ & _ & Hiff).
  exists r, s'. split; [exact E|].
  apply Hiff; [reflexivity|].
  vm_compute in E. inversion E. vm_compute. discriminate.
Defined.

(** ** Subsequences and the filter pipeline *)

Lemma Subseq_refl {A} (l : list A) : Subseq l l.
Proof. induction l; constructor; assumption. Qed.

Lemma Subseq_filter {A} (f : A -> bool) (l : list A) : Subseq (filter f l) l.
Proof.
  induction l as [|x l IH]; simpl; [constructor|].
  destruct (f x); constructor; exact IH.
Qed.

Lemma Subseq_length {A} (l l' : list A) :
  Subseq l l' -> List.length l <= List.length l'.
Proof. induction 1; simpl; lia. Qed.

Lemma Subseq_trans {A} (l1 l2 l3 : list A) :
  Subseq l1 l2 -> Subseq l2 l3 -> Subseq l1 l3.
Proof.
  intros H12 H23. revert l1 H12.
  induction H23 as [|x l2 l3 H IH|x l2 l3 H IH]; intros l1 H12.
  - exact H12.
  - constructor. now apply IH.
  - inversion H12; subst; constructor; now apply IH.
Qed.

Lemma Subseq_In {A} (l l' : list A) (x : A) : Subseq l l' -> In x l -> In x l'.
Proof.
  induction 1; simpl; intros Hin; auto.
  destruct Hin; auto.
Qed.

Lemma filterIncludeOnly_Subseq cfg l : Subseq (filterIncludeOnly cfg l) l.
Proof.
  unfold filterIncludeOnly. destruct (include_only cfg) as [ids|]; [|apply Subseq_refl].
  destruct (0 <? List.length ids)%nat; [apply Subseq_filter | apply Subseq_refl].
Qed.

Lemma filterExcludeApps_Subseq cfg l : Subseq (filterExcludeApps cfg l) l.
Proof.
  unfold filterExcludeApps. destruct (exclude_apps cfg) as [ids|]; [|apply Subseq_refl].
  destruct (0 <? List.length ids)%nat; [apply Subseq_filter | apply Subseq_refl].
Qed.

Lemma filterFeaturedCategories_Subseq cfg l : Subseq (filterFeaturedCategories cfg l) l.
Proof.
  unfold filterFeaturedCategories.
  destruct (featured_categories cfg) as [ids|]; [|apply Subseq_refl].
  destruct (0 <? List.length ids)%nat; [apply Subseq_filter | apply Subseq_refl].
Qed.

Lemma applyFilters_Subseq cfg l : Subseq (applyFilters cfg l) l.
Proof.
  unfold applyFilters.
  eapply Subseq_trans; [apply filterFeaturedCategories_Subseq|].
  eapply Subseq_trans; [apply filterExcludeApps_Subseq|].
  apply filterIncludeOnly_Subseq.
Qed.

(** ** Sorting *)

Section Sorting.

Variable localeCompare : string -> string -> Z.

Lemma compareApps_Normal (a b : obj) (c : Z) :
  compareApps localeCompare a b = Normal c -> c = comparatorValue localeCompare a b.
Proof.
  unfold compareApps, comparatorValue, featured, nameOf.
  destruct (truthy (get "featured" a) && negb (truthy (get "featured" b)));
    [congruence|].
  destruct (negb (truthy (get "featured" a)) && truthy (get "featured" b));
    [congruence|].
  destruct (get "name" a) as [[]|]; try discriminate.
  simpl. congruence.
Qed.

Lemma compareApps_string_name (a b : obj) :
  hasStringName a ->
  compareApps localeCompare a b = Normal (comparatorValue localeCompare a b).
Proof.
  intros [name Hname].
  unfold compareApps, comparatorValue, featured, nameOf. rewrite Hname. simpl.
  destruct (truthy (get "featured" a) && negb (truthy (get "featured" b)));
    [reflexivity|].
  now destruct (negb (truthy (get "featured" a)) && truthy (get "featured" b)).
Qed.

Lemma comparator_le (a b : obj) :
  (comparatorValue localeCompare a b <= 0)%Z -> appLe localeCompare a b.
Proof.
  unfold comparatorValue, appLe, collationLe.
  destruct (featured a), (featured b); simpl; intros H; split;
    intros; try congruence; try lia.
Qed.

(** Insertion keeps the elements, whatever the comparator answers. *)
Lemma insertSorted_Permutation (x : obj) (l l' : list obj) :
  insertSorted localeCompare x l = Normal l' -> Permutation (x :: l) l'.
Proof.
  revert l'. induction l as [|y r IH]; simpl; intros l' H.
  - inversion H. apply Permutation_refl.
  - destruct (compareApps localeCompare x y) as [c|e]; [|discriminate].
    destruct (c <=? 0)%Z.
    + inversion H. apply Permutation_refl.
    + destruct (insertSorted localeCompare x r) as [r'|e]; [|discriminate].
      inversion H; subst.
      eapply Permutation_trans; [apply perm_swap|].
      apply perm_skip. now apply IH.
Qed.

Lemma toSorted_Permutation (l l' : list obj) :
  toSorted localeCompare l = Normal l' -> Permutation l l'.
Proof.
  revert l'. induction l as [|x r IH]; simpl; intros l' H.
  - inversion H. apply Permutation_refl.
  - destruct (toSorted localeCompare r) as [r'|e]; [|discriminate].
    eapply Permutation_trans; [apply perm_skip, IH; reflexivity|].
    now apply insertSorted_Permutation.
Qed.

(** With string names the comparator never throws, so neither does the sort. *)
Lemma insertSorted_returns (x : obj) (l : list obj) :
  hasStringName x -> exists l', insertSorted localeCompare x l = Normal l'.
Proof.
  intros Hx. induction l as [|y r [r' IH]]; simpl; [now eexists|].
  rewrite (compareApps_string_name x y Hx).
  destruct (comparatorValue localeCompare x y <=? 0)%Z; [now eexists|].
  rewrite IH. now eexists.
Qed.

Lemma toSorted_returns (l : list obj) :
  Forall hasStringName l -> exists l', toSorted localeCompare l = Normal l'.
Proof.
  induction 1 as [|x r Hx Hr [r' IH]]; simpl; [now eexists|].
  rewrite IH. now apply insertSorted_returns.
Qed.

(** A comparator that never calls both [a] after [b] and [b] after [a]. *)
Hypothesis localeCompare_total :
  forall a b, (0 < localeCompare a b)%Z -> (localeCompare b a <= 0)%Z.

Lemma comparator_gt (a b : obj) :
  (0 < comparatorValue localeCompare a b)%Z -> appLe localeCompare b a.
Proof.
  unfold comparatorValue, appLe, collationLe.
  pose proof (localeCompare_total (nameOf a) (nameOf b)) as Htot.
  destruct (featured a), (featured b); simpl; intros H; split;
    intros; try congruence; try lia; auto.
Qed.

Lemma insertSorted_HdRel (a x : obj) (l l' : list obj) :
  insertSorted localeCompare x l = Normal l' ->
  HdRel (appLe localeCompare) a l -> appLe localeCompare a x -> HdRel (appLe localeCompare) a l'.
Proof.
  intros H Hhd Hax. destruct l as [|z r]; simpl in H.
  - inversion H. now constructor.
  - destruct (compareApps localeCompare x z) as [c|e]; [|discriminate].
    destruct (c <=? 0)%Z.
    + inversion H. now constructor.
    + destruct (insertSorted localeCompare x r) as [r'|e]; [|discriminate].
      inversion H. constructor. now inversion Hhd.
Qed.

Lemma insertSorted_Sorted (x : obj) (l l' : list obj) :
  Sorted (appLe localeCompare) l ->
  insertSorted localeCompare x l = Normal l' ->
  Sorted (appLe localeCompare) l'.
Proof.
  revert l'. induction l as [|a r IH]; simpl; intros l' Hs H.
  - inversion H. repeat constructor.
  - destruct (compareApps localeCompare x a) as [c|e] eqn:Ec; [|discriminate].
    apply compareApps_Normal in Ec. subst c.
    apply Sorted_inv in Hs as [Hr Hhd].
    destruct (Z.leb_spec (comparatorValue localeCompare x a) 0) as [Hle|Hgt].
    + inversion H. constructor; [now constructor|].
      constructor. now apply comparator_le.
    + destruct (insertSorted localeCompare x r) as [r'|e] eqn:Er; [|discriminate].
      inversion H. constructor; [now apply IH|].
      apply (insertSorted_HdRel a x r r' Er Hhd). now apply comparator_gt.
Qed.

Lemma toSorted_Sorted (l l' : list obj) :
  toSorted localeCompare l = Normal l' -> Sorted (appLe localeCompare) l'.
Proof.
  revert l'. induction l as [|x r IH]; simpl; intros l' H.
  - inversion H. constructor.
  - destruct (toSorted localeCompare r) as [r'|e]; [|discriminate].
    now apply (insertSorted_Sorted x r' l' (IH r' eq_refl)).
Qed.

Lemma Sorted_adjacent (l : list obj) :
  Sorted (appLe localeCompare) l -> adjacentOrdered (collationLe localeCompare) l.
Proof.
  unfold adjacentOrdered.
  induction 1 as [|a r Hr IH Hhd]; intros i x y Hx Hy.
  - now destruct i.
  - destruct i as [|i].
    + simpl in Hx, Hy. inversion Hx; subst.
      destruct r as [|b r]; [discriminate|].
      inversion Hy; subst. now inversion Hhd.
    + now apply (IH i).
Qed.

Lemma toSorted_adjacentOrdered (l l' : list obj) :
  toSorted localeCompare l = Normal l' ->
  adjacentOrdered (collationLe localeCompare) l'.
Proof.
  intros H. now apply Sorted_adjacent, (toSorted_Sorted l).
Qed.

End Sorting.

(** ** Counting apps per category *)

Lemma assoc_setCount_same (k : string) (v : countVal) (o : list (string * countVal)) :
  assoc k (setCount k v o) = Some v.
Proof.
  induction o as [|[k' v'] r IH]; simpl.
  - now rewrite String.eqb_refl.
  - destruct (String.eqb k k') eqn:E; simpl.
    + now rewrite String.eqb_refl.
    + now rewrite E.
Qed.

Lemma assoc_setCount_other (k k' : string) (v : countVal) (o : list (string * countVal)) :
  k' <> k -> assoc k' (setCount k v o) = assoc k' o.
Proof.
  intros Hne. induction o as [|[k0 v0] r IH]; simpl.
  - destruct (String.eqb_spec k' k); [contradiction | reflexivity].
  - destruct (String.eqb_spec k k0) as [->|Hk]; simpl.
    + destruct (String.eqb_spec k' k0); [contradiction | reflexivity].
    + destruct (String.eqb_spec k' k0); [reflexivity | exact IH].
Qed.

(** One [forEach] step seen from a key that [Object.prototype] does not
    define. *)
Lemma countOrZero_step (counts : list (string * countVal)) (k k' : string) :
  inherited k = false ->
  countOrZero (assignCount k' (plusOne (countOrZero counts k')) counts) k
  = if String.eqb k' k then plusOne (countOrZero counts k) else countOrZero counts k.
Proof.
  intros Hk. unfold assignCount.
  destruct (String.eqb_spec k' "__proto__") as [->|Hproto].
  - destruct (String.eqb_spec "__proto__" k) as [<-|]; [discriminate Hk | reflexivity].
  - destruct (String.eqb_spec k' k) as [->|Hne]; unfold countOrZero at 1.
    + now rewrite assoc_setCount_same.
    + rewrite assoc_setCount_other by congruence. reflexivity.
Qed.

Lemma countCategories_from (apps : list obj) (counts : list (string * countVal))
    (k : string) (n : nat) :
  inherited k = false ->
  countOrZero counts k = Count n ->
  countOrZero
    (fold_left
       (fun categoryCounts app =>
          let key := toString (get "category" app) in
          assignCount key (plusOne (countOrZero categoryCounts key)) categoryCounts)
       apps counts) k
  = Count (n + appsInCategory k apps).
Proof.
  intros Hk. revert counts n.
  induction apps as [|app r IH]; intros counts n Hn; simpl.
  - rewrite Hn. f_equal. unfold appsInCategory. simpl. lia.
  - unfold appsInCategory. simpl. unfold categoryOf at 1.
    destruct (String.eqb (toString (get "category" app)) k) eqn:E.
    + rewrite (IH _ (S n)).
      * f_equal. unfold appsInCategory. simpl. lia.
      * rewrite countOrZero_step by assumption. rewrite E, Hn. reflexivity.
    + rewrite (IH _ n).
      * reflexivity.
      * rewrite countOrZero_step by assumption. now rewrite E.
Qed.

(** For every key that is not an [Object.prototype] name, the counter holds
    the number of apps filed under it. *)
Lemma countCategories_counts (apps : list obj) (k : string) :
  inherited k = false ->
  countOrZero (countCategories apps) k = Count (appsInCategory k apps).
Proof.
  intros Hk.
  apply (countCategories_from apps [] k 0 Hk).
  unfold countOrZero. simpl. now rewrite Hk.
Qed.

(** ** Strings *)

Lemma length_append (a b : string) :
  String.length (a ++ b) = String.length a + String.length b.
Proof. induction a; simpl; congruence. Qed.

Lemma append_inj_l (p a b : string) : p ++ a = p ++ b -> a = b.
Proof. induction p; simpl; intros H; [exact H|]. inversion H. auto. Qed.

Lemma append_inj_r (a b s : string) : a ++ s = b ++ s -> a = b.
Proof.
  revert b. induction a as [|c a IH]; intros [|d b] H; simpl in H.
  - reflexivity.
  - apply (f_equal String.length) in H. simpl in H. rewrite length_append in H. lia.
  - apply (f_equal String.length) in H. simpl in H. rewrite length_append in H. lia.
  - inversion H. f_equal. now apply IH.
Qed.

Lemma append_assoc (a b c : string) : (a ++ b) ++ c = a ++ b ++ c.
Proof. induction a; simpl; congruence. Qed.

Lemma stripPrefix_append (p s : string) : stripPrefix p (p ++ s) = Some s.
Proof.
  induction p as [|c p IH]; simpl; [now destruct s|].
  now rewrite Ascii.eqb_refl.
Qed.

(** ** The project builder *)

Section Builder.

Variable localeCompare : string -> string -> Z.
Variable now : string.
Variable fs : FileSystem.

(** What a returned index is made of. *)
Lemma buildProjectIndex_Some projectId projectConfig allApps s idx s' :
  buildProjectIndex localeCompare now fs projectId projectConfig allApps s
  = (Normal (Some idx), s') ->
  exists categoriesData,
    assoc projectId (categoryFiles fs) = Some (Some categoriesData) /\
    toSorted localeCompare
      (map (namespaceApp projectId) (applyFilters projectConfig allApps))
    = Normal (apps idx) /\
    categories idx
    = map (namespaceCategory projectId
             (countCategories (applyFilters projectConfig allApps)))
        categoriesData /\
    pi_id (project idx) = cfg_id projectConfig /\
    s' = s.
Proof.
  unfold buildProjectIndex.
  destruct (assoc projectId (categoryFiles fs)) as [[categoriesData|]|].
  - unfold bind, lift, ret.
    destruct (toSorted localeCompare _) as [sorted|e] eqn:E; [|discriminate].
    intros H. inversion H; subst. exists categoriesData. simpl. auto.
  - discriminate.
  - unfold bind, log, ret. discriminate.
Qed.

Lemma Subseq_Forall {A} (P : A -> Prop) (l l' : list A) :
  Subseq l l' -> Forall P l' -> Forall P l.
Proof.
  induction 1 as [|x l l' Hs IH|x l l' Hs IH]; intros HP.
  - constructor.
  - inversion HP; subst. auto.
  - inversion HP; subst. constructor; auto.
Qed.

(** With the category file in place and string names throughout, the
    builder returns an index and logs nothing. *)
Lemma buildProjectIndex_returns projectId projectConfig allApps categoriesData s :
  assoc projectId (categoryFiles fs) = Some (Some categoriesData) ->
  Forall hasStringName allApps ->
  exists idx,
    buildProjectIndex localeCompare now fs projectId projectConfig allApps s
    = (Normal (Some idx), s).
Proof.
  intros Hcats Hnames. unfold buildProjectIndex. rewrite Hcats.
  destruct (toSorted_returns localeCompare
              (map (namespaceApp projectId) (applyFilters projectConfig allApps)))
    as [sorted Hs].
  - apply Forall_map.
    eapply Forall_impl;
      [|exact (Subseq_Forall _ _ _ (applyFilters_Subseq projectConfig allApps) Hnames)].
    intros app [name Hname]. exists name.
    unfold namespaceApp. rewrite get_set_other by discriminate. exact Hname.
  - unfold bind, lift, ret. rewrite Hs. now eexists.
Qed.

(** A returned index lists the filtered apps, namespaced, in some order. *)
Lemma buildProjectIndex_apps projectId projectConfig allApps s idx s' :
  buildProjectIndex localeCompare now fs projectId projectConfig allApps s
  = (Normal (Some idx), s') ->
  Permutation (map (namespaceApp projectId) (applyFilters projectConfig allApps))
    (apps idx).
Proof.
  intros H. apply buildProjectIndex_Some in H as (cats & _ & Hs & _).
  now apply (toSorted_Permutation localeCompare).
Qed.

Lemma buildProjectIndex_app_origin projectId projectConfig allApps s idx s' app :
  buildProjectIndex localeCompare now fs projectId projectConfig allApps s
  = (Normal (Some idx), s') ->
  In app (apps idx) ->
  exists original,
    In original allApps /\ app = namespaceApp projectId original.
Proof.
  intros H Hin. apply buildProjectIndex_apps in H.
  apply Permutation_sym in H. apply (Permutation_in _ H) in Hin.
  apply in_map_iff in Hin as (original & <- & Hin).
  exists original. split; [|reflexivity].
  eapply Subseq_In; [apply applyFilters_Subseq | exact Hin].
Qed.

Lemma namespaceApp_category projectId app :
  get "category" (namespaceApp projectId app)
  = Some (JStr (projectId ++ ":" ++ categoryOf app)).
Proof. unfold namespaceApp. apply get_set_same. Qed.

Lemma buildProjectIndex_category_ids projectId projectConfig allApps s idx s' c :
  buildProjectIndex localeCompare now fs projectId projectConfig allApps s
  = (Normal (Some idx), s') ->
  In c (categories idx) ->
  nc_id c = projectId ++ ":" ++ toString (originalId c).
Proof.
  intros H Hin. apply buildProjectIndex_Some in H as (cats & _ & _ & Hc & _).
  rewrite Hc in Hin. apply in_map_iff in Hin as (cat & <- & _). reflexivity.
Qed.

(** C1, as the code has it. The apps of a project index are exactly the
    apps that passed the project's filters, each with its category namespaced:
    every one of them is kept, whether or not its category is defined.  The
    namespaced category of such an app is the id of a listed category exactly
    when the app's original category id is the id of an entry of the
    project's category-definition file; so an app filed under an undefined
    category is in the output with a category that no listed category
    carries. *)
Theorem category_listed_iff_defined projectId projectConfig allApps s idx s' :
  buildProjectIndex localeCompare now fs projectId projectConfig allApps s
  = (Normal (Some idx), s') ->
  exists categoriesData,
    assoc projectId (categoryFiles fs) = Some (Some categoriesData) /\
    Permutation
      (map (namespaceApp projectId) (applyFilters projectConfig allApps))
      (apps idx) /\
    (forall app, In app (apps idx) ->
       exists original,
         In original (applyFilters projectConfig allApps) /\
         app = namespaceApp projectId original) /\
    (forall original, In original (applyFilters projectConfig allApps) ->
       In (namespaceApp projectId original) (apps idx) /\
       ((exists c, In c (categories idx) /\
                   get "category" (namespaceApp projectId original)
                   = Some (JStr (nc_id c)))
        <-> (exists cat, In cat categoriesData /\
                         toString (get "id" cat) = categoryOf original)) /\
       ((forall cat, In cat categoriesData ->
                     toString (get "id" cat) <> categoryOf original) ->
        forall c, In c (categories idx) ->
                  get "category" (namespaceApp projectId original)
                  <> Some (JStr (nc_id c)))).
Proof.
  intros H.
  destruct (buildProjectIndex_Some _ _ _ _ _ _ H) as (cats & Hcats & _ & Hc & _).
  pose proof (buildProjectIndex_apps _ _ _ _ _ _ H) as Hperm.
  exists cats. split; [exact Hcats|]. split; [exact Hperm|].
  assert (Hiff : forall original,
             (exists c, In c (categories idx) /\
                        get "category" (namespaceApp projectId original)
                        = Some (JStr (nc_id c)))
             <-> (exists cat, In cat cats /\
                              toString (get "id" cat) = categoryOf original)).
  { intros original. rewrite namespaceApp_category, Hc. split.
    - intros (c & Hcin & Heq). apply in_map_iff in Hcin as (cat & <- & Hcat).
      exists cat. split; [exact Hcat|].
      simpl in Heq. inversion Heq as [Heq'].
      apply append_inj_l in Heq'. now inversion Heq'.
    - intros (cat & Hcat & Heq).
      exists (namespaceCategory projectId
                (countCategories (applyFilters projectConfig allApps)) cat).
      split; [now apply in_map|]. simpl. now rewrite Heq. }
  split.
  - intros app Hin. apply Permutation_sym in Hperm.
    apply (Permutation_in _ Hperm) in Hin.
    apply in_map_iff in Hin as (original & <- & Hin). now exists original.
  - intros original Hin. split; [|split].
    + apply (Permutation_in _ Hperm). now apply in_map.
    + apply Hiff.
    + intros Hundef c Hcin Heq.
      destruct (proj1 (Hiff original) (ex_intro _ c (conj Hcin Heq)))
        as (cat & Hcat & Hid).
      exact (Hundef cat Hcat Hid).
Qed.

(** *** The master index *)

(** Reading the category files changes neither console nor [dist/]. *)
Lemma collect_pure l acc :
  exists r, forall s, for_of l collectCategoryFile acc s = (r, s).
Proof.
  revert acc. induction l as [|[projectId [data|]] l IH]; intros acc; simpl.
  - now eexists.
  - destruct (IH (fold_left (addCategory projectId) data acc)) as [r Hr].
    exists r. intros s. unfold bind, ret. simpl. apply Hr.
  - eexists. intros s. reflexivity.
Qed.

(** What a completed master build wrote. *)
Lemma buildMasterIndex_Normal allApps s s' :
  buildMasterIndex localeCompare now fs allApps s = (Normal tt, s') ->
  exists collected sorted,
    (forall s0, for_of (categoryFiles fs) collectCategoryFile ([], []) s0
                = (Normal collected, s0)) /\
    toSorted localeCompare allApps = Normal sorted /\
    writeSucceeds fs "dist/index.json" = true /\
    written s'
    = (written s
       ++ [("dist/index.json",
            MasterArtifact
              {| m_version := MASTER_INDEX_VERSION;
                 m_updated := now;
                 m_apps := sorted;
                 m_categories :=
                   map (withCount (countCategories allApps))
                     (map snd (snd collected)) |})])%list.
Proof.
  destruct (collect_pure (categoryFiles fs) ([], [])) as [r Hr].
  unfold buildMasterIndex, bind, lift, log, writeFileSync. simpl.
  rewrite Hr.
  destruct r as [collected|e]; [|discriminate].
  destruct (toSorted localeCompare allApps) as [sorted|e]; [|discriminate].
  destruct (writeSucceeds fs "dist/index.json"); [|discriminate].
  intros H. inversion H; subst. clear H. simpl.
  exists collected, sorted. auto.
Qed.

(** C5, as the code has it. With a collation that never ranks two names
    each after the other, adjacent apps of a project index and of the master
    index are ordered featured first and then by [localeCompare] of their
    names. *)
Theorem output_apps_sorted_by_collation :
  (forall a b, (0 < localeCompare a b)%Z -> (localeCompare b a <= 0)%Z) ->
  (forall projectId projectConfig allApps s idx s',
      buildProjectIndex localeCompare now fs projectId projectConfig allApps s
      = (Normal (Some idx), s') ->
      adjacentOrdered (collationLe localeCompare) (apps idx)) /\
  (forall allApps s s',
      buildMasterIndex localeCompare now fs allApps s = (Normal tt, s') ->
      exists m,
        written s' = (written s ++ [("dist/index.json", MasterArtifact m)])%list /\
        Permutation allApps (m_apps m) /\
        adjacentOrdered (collationLe localeCompare) (m_apps m)).
Proof.
  intros Htotal. split.
  - intros projectId projectConfig allApps s idx s' H.
    apply buildProjectIndex_Some in H as (cats & _ & Hs & _).
    now apply (toSorted_adjacentOrdered localeCompare Htotal _ _ Hs).
  - intros allApps s s' H.
    apply buildMasterIndex_Normal in H as (collected & sorted & _ & Hs & _ & Hw).
    eexists. split; [exact Hw|]. simpl. split.
    + now apply (toSorted_Permutation localeCompare).
    + now apply (toSorted_adjacentOrdered localeCompare Htotal _ _ Hs).
Qed.

(** C7. The three filters run in the order [include_only], [exclude_apps],
    [featured_categories], each on the result of the one before; a filter
    whose list is absent or empty changes nothing, the others keep exactly the
    apps that pass; each result is a subsequence of its input and no longer
    than it, so the filtered list is a subsequence of the full one, and the
    apps of a returned index are those filtered apps. *)
Theorem filters_run_in_order_and_shrink projectConfig allApps :
  applyFilters projectConfig allApps
  = filterFeaturedCategories projectConfig
      (filterExcludeApps projectConfig
         (filterIncludeOnly projectConfig allApps)) /\
  (forall l,
      (include_only projectConfig = None \/ include_only projectConfig = Some []
       -> filterIncludeOnly projectConfig l = l) /\
      (forall id ids, include_only projectConfig = Some (id :: ids) ->
         filterIncludeOnly projectConfig l
         = filter (fun app => includes (id :: ids) (get "id" app)) l) /\
      Subseq (filterIncludeOnly projectConfig l) l /\
      List.length (filterIncludeOnly projectConfig l) <= List.length l) /\
  (forall l,
      (exclude_apps projectConfig = None \/ exclude_apps projectConfig = Some []
       -> filterExcludeApps projectConfig l = l) /\
      (forall id ids, exclude_apps projectConfig = Some (id :: ids) ->
         filterExcludeApps projectConfig l
         = filter (fun app => negb (includes (id :: ids) (get "id" app))) l) /\
      Subseq (filterExcludeApps projectConfig l) l /\
      List.length (filterExcludeApps projectConfig l) <= List.length l) /\
  (forall l,
      (featured_categories projectConfig = None
       \/ featured_categories projectConfig = Some []
       -> filterFeaturedCategories projectConfig l = l) /\
      (forall id ids, featured_categories projectConfig = Some (id :: ids) ->
         filterFeaturedCategories projectConfig l
         = filter (fun app => includes (id :: ids) (get "category" app)) l) /\
      Subseq (filterFeaturedCategories projectConfig l) l /\
      List.length (filterFeaturedCategories projectConfig l) <= List.length l) /\
  Subseq (applyFilters projectConfig allApps) allApps /\
  List.length (applyFilters projectConfig allApps) <= List.length allApps /\
  (forall projectId s idx s',
      buildProjectIndex localeCompare now fs projectId projectConfig allApps s
      = (Normal (Some idx), s') ->
      Permutation
        (map (namespaceApp projectId) (applyFilters projectConfig allApps))
        (apps idx) /\
      List.length (apps idx) <= List.length allApps).
Proof.
  split; [reflexivity|].
  split; [|split; [|split]].
  - intros l. split; [|split; [|split]].
    + unfold filterIncludeOnly. intros [-> | ->]; reflexivity.
    + unfold filterIncludeOnly. intros id ids ->. reflexivity.
    + apply filterIncludeOnly_Subseq.
    + apply Subseq_length, filterIncludeOnly_Subseq.
  - intros l. split; [|split; [|split]].
    + unfold filterExcludeApps. intros [-> | ->]; reflexivity.
    + unfold filterExcludeApps. intros id ids ->. reflexivity.
    + apply filterExcludeApps_Subseq.
    + apply Subseq_length, filterExcludeApps_Subseq.
  - intros l. split; [|split; [|split]].
    + unfold filterFeaturedCategories. intros [-> | ->]; reflexivity.
    + unfold filterFeaturedCategories. intros id ids ->. reflexivity.
    + apply filterFeaturedCategories_Subseq.
    + apply Subseq_length, filterFeaturedCategories_Subseq.
  - split; [apply applyFilters_Subseq|].
    split; [apply Subseq_length, applyFilters_Subseq|].
    intros projectId s idx s' H.
    pose proof (buildProjectIndex_apps _ _ _ _ _ _ H) as Hperm.
    split; [exact Hperm|].
    rewrite <- (Permutation_length Hperm), length_map.
    apply Subseq_length, applyFilters_Subseq.
Qed.

(** Entries of [categoryData] carry their project's prefix. *)
Lemma addCategory_entries projectId data acc :
  (forall e, In e (map snd (snd acc)) ->
             ce_id e = ce_project e ++ ":" ++ toString (ce_originalId e)) ->
  forall e, In e (map snd (snd (fold_left (addCategory projectId) data acc))) ->
            ce_id e = ce_project e ++ ":" ++ toString (ce_originalId e).
Proof.
  revert acc. induction data as [|cat data IH]; intros acc Hacc; simpl; [exact Hacc|].
  apply IH. destruct acc as [allCategories categoryData]. unfold addCategory.
  destruct (existsb _ allCategories); [exact Hacc|].
  simpl. intros e Hin. rewrite map_app, in_app_iff in Hin.
  destruct Hin as [Hin | [<- | []]]; [now apply Hacc | reflexivity].
Qed.

Lemma collect_entries l acc r s s' :
  for_of l collectCategoryFile acc s = (Normal r, s') ->
  (forall e, In e (map snd (snd acc)) ->
             ce_id e = ce_project e ++ ":" ++ toString (ce_originalId e)) ->
  forall e, In e (map snd (snd r)) ->
            ce_id e = ce_project e ++ ":" ++ toString (ce_originalId e).
Proof.
  revert acc s. induction l as [|[projectId [data|]] l IH]; intros acc s; simpl.
  - unfold ret. intros H. now inversion H.
  - unfold bind, ret. simpl. intros H Hacc.
    apply (IH _ _ H). now apply addCategory_entries.
  - unfold bind, throw. discriminate.
Qed.

(** C8. In a project index and in the master index the id of every category
    is its project's directory name, a colon, and its [originalId]; taking
    the prefix off gives back the [originalId] (itself, when it is a
    string). *)
Theorem namespaced_id_round_trip :
  (forall projectId projectConfig allApps s idx s',
      buildProjectIndex localeCompare now fs projectId projectConfig allApps s
      = (Normal (Some idx), s') ->
      forall c, In c (categories idx) ->
        nc_id c = projectId ++ ":" ++ toString (originalId c) /\
        stripPrefix (projectId ++ ":") (nc_id c) = Some (toString (originalId c)) /\
        (forall id, originalId c = Some (JStr id) ->
                    stripPrefix (projectId ++ ":") (nc_id c) = Some id)) /\
  (forall allApps s s',
      buildMasterIndex localeCompare now fs allApps s = (Normal tt, s') ->
      exists m,
        written s' = (written s ++ [("dist/index.json", MasterArtifact m)])%list /\
        forall c, In c (m_categories m) ->
          exists projectId,
            nc_project c = Some projectId /\
            nc_id c = projectId ++ ":" ++ toString (originalId c) /\
            stripPrefix (projectId ++ ":") (nc_id c) = Some (toString (originalId c)) /\
            (forall id, originalId c = Some (JStr id) ->
                        stripPrefix (projectId ++ ":") (nc_id c) = Some id)).
Proof.
  assert (Hstrip : forall p id o,
             id = p ++ ":" ++ toString o ->
             id = p ++ ":" ++ toString o /\
             stripPrefix (p ++ ":") id = Some (toString o) /\
             (forall x, o = Some (JStr x) -> stripPrefix (p ++ ":") id = Some x)).
  { intros p id o ->. split; [reflexivity|].
    rewrite <- append_assoc, stripPrefix_append.
    split; [reflexivity|]. now intros x ->. }
  split.
  - intros projectId projectConfig allApps s idx s' H c Hin.
    apply Hstrip. now apply (buildProjectIndex_category_ids _ _ _ _ _ _ _ H).
  - intros allApps s s' H.
    apply buildMasterIndex_Normal in H as (collected & sorted & Hc & _ & _ & Hw).
    eexists. split; [exact Hw|]. simpl.
    intros c Hin. apply in_map_iff in Hin as (e & <- & Hin).
    exists (ce_project e). split; [reflexivity|]. simpl.
    apply Hstrip.
    apply (collect_entries _ _ _ _ _ (Hc noEffects)); [|exact Hin].
    intros e0 [].
Qed.

(** Building a project index writes nothing. *)
Lemma buildProjectIndex_written projectId projectConfig allApps s r s' :
  buildProjectIndex localeCompare now fs projectId projectConfig allApps s = (r, s') ->
  written s' = written s.
Proof.
  unfold buildProjectIndex.
  destruct (assoc projectId (categoryFiles fs)) as [[categoriesData|]|].
  - unfold bind, lift, ret.
    destruct (toSorted localeCompare _); intros H; now inversion H.
  - unfold throw. intros H. now inversion H.
  - unfold bind, log, ret. intros H. now inversion H.
Qed.

(** One loop iteration over a parsed project, case by case: whatever the
    builder or the write does, the iteration completes. *)
Lemma buildProject_parsed dir projectConfig allApps s :
  let s0 := {| console := (console s
                           ++ [BuildingProject (toString (cfg_name projectConfig))])%list;
               written := written s |} in
  let projectFile := "projects/" ++ dir ++ "/project.json" in
  let outputPath := "dist/" ++ dir ++ ".json" in
  buildProject localeCompare now fs allApps tt (dir, Some projectConfig) s
  = match buildProjectIndex localeCompare now fs dir projectConfig allApps s0 with
    | (Normal (Some idx), s1) =>
        if writeSucceeds fs outputPath
        then (Normal tt,
              {| console := (console s1
                             ++ [BuiltIndex outputPath (List.length (apps idx))
                                   (List.length (categories idx))])%list;
                 written := (written s1 ++ [(outputPath, ProjectArtifact idx)])%list |})
        else (Normal tt,
              {| console := (console s1
                             ++ [ProjectError projectFile (WriteError outputPath)])%list;
                 written := written s1 |})
    | (Normal None, s1) => (Normal tt, s1)
    | (Throw e, s1) =>
        (Normal tt,
         {| console := (console s1 ++ [ProjectError projectFile e])%list;
            written := written s1 |})
    end.
Proof.
  cbv zeta. unfold buildProject, try_catch, bind, log, ret, writeFileSync.
  cbv beta iota.
  destruct (buildProjectIndex _ _ _ _ _ _ _) as [[[idx|]|e] s1]; try reflexivity.
  destruct (writeSucceeds fs ("dist/" ++ dir ++ ".json")); reflexivity.
Qed.

(** What one iteration may add to [dist/]: nothing, or the index of its
    project under the directory's name. *)
Lemma buildProject_written allApps entry s :
  exists s',
    buildProject localeCompare now fs allApps tt entry s = (Normal tt, s') /\
    (written s' = written s \/
     exists projectConfig idx s0,
       snd entry = Some projectConfig /\
       buildProjectIndex localeCompare now fs (fst entry) projectConfig allApps s0
       = (Normal (Some idx), s0) /\
       writeSucceeds fs ("dist/" ++ fst entry ++ ".json") = true /\
       written s'
       = (written s
          ++ [(("dist/" ++ fst entry ++ ".json")%string, ProjectArtifact idx)])%list).
Proof.
  destruct entry as [dir [projectConfig|]].
  - rewrite buildProject_parsed. cbv zeta. unfold fst, snd.
    destruct (buildProjectIndex _ _ _ _ _ _ _) as [[[idx|]|e] s1] eqn:E.
    + pose proof (buildProjectIndex_written _ _ _ _ _ _ E) as Hw. cbn [written] in Hw.
      pose proof (buildProjectIndex_Some _ _ _ _ _ _ E) as (_ & _ & _ & _ & _ & ->).
      destruct (writeSucceeds fs ("dist/" ++ dir ++ ".json")) eqn:W.
      * eexists. split; [reflexivity|]. right.
        exists projectConfig, idx. eexists. simpl. repeat split; eauto.
      * eexists. split; [reflexivity|]. now left.
    + apply buildProjectIndex_written in E. eexists. split; [reflexivity|]. now left.
    + apply buildProjectIndex_written in E. eexists. split; [reflexivity|]. now left.
  - eexists. split; [reflexivity|]. now left.
Qed.

(** The loop over the projects completes whatever happens inside it, and
    writes project indexes only, each where writing succeeds. *)
Lemma projects_loop allApps l s :
  exists s',
    for_of l (buildProject localeCompare now fs allApps) tt s = (Normal tt, s') /\
    forall p a, In (p, a) (written s') ->
      In (p, a) (written s) \/
      (writeSucceeds fs p = true /\ exists idx, a = ProjectArtifact idx).
Proof.
  revert s. induction l as [|entry l IH]; intros s; simpl.
  - eexists. split; [reflexivity|]. auto.
  - destruct (buildProject_written allApps entry s) as (s1 & E & Hw).
    destruct (IH s1) as (s' & E' & Hw').
    exists s'. unfold bind. rewrite E. split; [exact E'|].
    intros p a Hin. destruct (Hw' p a Hin) as [Hin1|Hnew]; [|now right].
    destruct Hw as [Hw | (cfg & idx & s0 & _ & _ & W & Hw)];
      rewrite Hw in Hin1; [now left|].
    apply in_app_iff in Hin1 as [Hin1 | [Heq | []]]; [now left|].
    inversion Heq; subst. right. split; [exact W|]. now exists idx.
Qed.

(** C10. The index a project's iteration writes goes to the file named
    after the directory, its [project.id] is the [id] field of the config,
    and every category id and every app category in it starts with the
    directory name and a colon.  When the config's [id] is another string
    than the directory name, none of them is what prefixing with [project.id]
    would give. *)
Theorem namespace_prefix_is_directory_name dir projectConfig allApps s r s' :
  buildProject localeCompare now fs allApps tt (dir, Some projectConfig) s = (r, s') ->
  written s' = written s \/
  exists idx,
    written s'
    = (written s ++ [(("dist/" ++ dir ++ ".json")%string, ProjectArtifact idx)])%list /\
    pi_id (project idx) = cfg_id projectConfig /\
    (forall c, In c (categories idx) ->
               nc_id c = dir ++ ":" ++ toString (originalId c)) /\
    (forall app, In app (apps idx) ->
       exists original,
         In original allApps /\
         get "category" app = Some (JStr (dir ++ ":" ++ categoryOf original))) /\
    (forall id, cfg_id projectConfig = Some (JStr id) -> id <> dir ->
       (forall c, In c (categories idx) ->
                  nc_id c <> id ++ ":" ++ toString (originalId c)) /\
       (forall app, In app (apps idx) ->
          exists original,
            In original allApps /\
            get "category" app <> Some (JStr (id ++ ":" ++ categoryOf original)))).
Proof.
  intros H.
  destruct (buildProject_written allApps (dir, Some projectConfig) s)
    as (s1 & E & Hw).
  rewrite E in H. inversion H; subst. clear H.
  destruct Hw as [Hw | (cfg & idx & s0 & Hcfg & Hidx & _ & Hw)]; [now left|].
  right. simpl in Hcfg, Hidx, Hw. inversion Hcfg; subst cfg.
  exists idx. split; [exact Hw|].
  pose proof (buildProjectIndex_Some _ _ _ _ _ _ Hidx) as (_ & _ & _ & _ & Hid & _).
  split; [exact Hid|].
  assert (Hcat : forall c, In c (categories idx) ->
                           nc_id c = dir ++ ":" ++ toString (originalId c))
    by (intros c; apply (buildProjectIndex_category_ids _ _ _ _ _ _ _ Hidx)).
  assert (Happ : forall app, In app (apps idx) ->
            exists original,
              In original allApps /\
              get "category" app = Some (JStr (dir ++ ":" ++ categoryOf original))).
  { intros app Hin.
    destruct (buildProjectIndex_app_origin _ _ _ _ _ _ _ Hidx Hin) as (o & Ho & ->).
    exists o. split; [exact Ho | apply namespaceApp_category]. }
  split; [exact Hcat|]. split; [exact Happ|].
  intros id _ Hne. split.
  - intros c Hin Heq. rewrite (Hcat c Hin) in Heq.
    apply append_inj_r in Heq. congruence.
  - intros app Hin.
    destruct (buildProjectIndex_app_origin _ _ _ _ _ _ _ Hidx Hin) as (o & Ho & ->).
    exists o. split; [exact Ho|].
    rewrite namespaceApp_category. intros Heq. inversion Heq as [Heq'].
    apply append_inj_r in Heq'. congruence.
Qed.

End Builder.

(** ** The driver *)

Section Driver.

Variable hostname : string -> option string.
Variable fetch : string -> response.
Variable localeCompare : string -> string -> Z.
Variable now : string.
Variable fs : FileSystem.

(** For a category id that [Object.prototype] does not define, the master
    count is the number of apps of the full set filed under it. *)
Lemma master_counts allApps s s' :
  buildMasterIndex localeCompare now fs allApps s = (Normal tt, s') ->
  exists m,
    written s' = (written s ++ [("dist/index.json", MasterArtifact m)])%list /\
    forall c, In c (m_categories m) ->
      inherited (toString (originalId c)) = false ->
      count c = Count (appsInCategory (toString (originalId c)) allApps).
Proof.
  intros H.
  apply buildMasterIndex_Normal in H as (collected & sorted & _ & _ & _ & Hw).
  eexists. split; [exact Hw|]. simpl.
  intros c Hin Hk. apply in_map_iff in Hin as (e & <- & _). simpl in *.
  now apply countCategories_counts.
Qed.

Lemma requestMetadata_state repoUrl s r s' :
  requestMetadata hostname fetch repoUrl s = (r, s') -> s' = s.
Proof.
  unfold requestMetadata, throw, ret.
  destruct (hostname (toString repoUrl)) as [host|]; [|intros H; now inversion H].
  destruct (negb (host =? "github.com")); [intros H; now inversion H|].
  destruct (execRepo (toString repoUrl)) as [[owner repo]|]; [|intros H; now inversion H].
  destruct (fetch _) as [|[|] [[]|]]; intros H; now inversion H.
Qed.

Lemma enrich_written app s r s' :
  enrich hostname fetch app s = (r, s') -> written s' = written s.
Proof.
  unfold enrich, fetchGitHubMetadata, bind, log, try_catch, ret.
  destruct (truthy (linksGithub app)); [|intros H; now inversion H].
  cbn [negb].
  destruct (requestMetadata hostname fetch (linksGithub app) _) as [[x|e] s1] eqn:E;
    apply requestMetadata_state in E; subst s1; intros H; inversion H; reflexivity.
Qed.

(** The loader completes on every file list and writes nothing. *)
Lemma loadApps_returns l apps s :
  exists apps' s',
    for_of l (loadApp hostname fetch) apps s = (Normal apps', s') /\
    written s' = written s.
Proof.
  revert apps s. induction l as [|[file [app|]] l IH]; intros apps s; cbn [for_of].
  - now eexists _, _.
  - destruct (loadApp_parsed hostname fetch apps file app s) as (r & s1 & E & L).
    unfold bind. rewrite L.
    destruct (IH (apps ++ [indexEntry app r])%list s1) as (apps' & s' & E' & Hw).
    exists apps', s'. split; [exact E'|].
    rewrite Hw. now apply (enrich_written app s (Normal r)).
  - unfold bind. rewrite loadApp_malformed.
    destruct (IH apps {| console := (console s
                                     ++ [AppError file (ReadOrParseError file)])%list;
                         written := written s |}) as (apps' & s' & E' & Hw).
    exists apps', s'. split; [exact E'|]. now rewrite Hw.
Qed.

(** When the master index cannot be written the master build throws and
    leaves [dist/] as it found it. *)
Lemma buildMasterIndex_write_fails allApps s :
  writeSucceeds fs "dist/index.json" = false ->
  exists e s',
    buildMasterIndex localeCompare now fs allApps s = (Throw e, s') /\
    written s' = written s.
Proof.
  intros W.
  destruct (collect_pure (categoryFiles fs) ([], [])) as [r Hr].
  unfold buildMasterIndex, bind, lift, log, writeFileSync.
  cbv beta iota. rewrite Hr.
  destruct r as [collected|e]; [|now eexists _, _].
  destruct (toSorted localeCompare allApps) as [sorted|e]; [|now eexists _, _].
  rewrite W. now eexists _, _.
Qed.

(** The run up to the master build: unless [dist/] cannot be created, the
    loader returns the full app set, the project loop completes, and the
    master build runs on that same app set. *)
Lemma buildIndexes_steps s :
  (distExists fs = false /\ mkdirSucceeds fs = false /\
   buildIndexes hostname fetch localeCompare now fs s = (Throw (MkdirError "dist"), s))
  \/
  exists allApps s0 s1,
    loadAllApps hostname fetch fs
      {| console := (console s ++ [LoadingApps])%list; written := written s |}
    = (Normal allApps, s0) /\
    (forall p a, In (p, a) (written s1) ->
       In (p, a) (written s) \/
       (writeSucceeds fs p = true /\ exists idx, a = ProjectArtifact idx)) /\
    buildIndexes hostname fetch localeCompare now fs s
    = buildMasterIndex localeCompare now fs allApps s1.
Proof.
  unfold buildIndexes, mkdirDist, loadAllApps.
  destruct (distExists fs) eqn:D; [|destruct (mkdirSucceeds fs) eqn:K].
  3: { left. repeat split. }
  all: right; unfold bind at 1, ret; unfold bind at 1, log at 1;
    unfold bind at 1;
    match goal with
    | |- context [for_of (appFiles fs) _ [] ?s0] =>
        destruct (loadApps_returns (appFiles fs) [] s0) as (allApps & s1 & E & Hw1)
    end;
    rewrite E; unfold bind at 1, log at 1; unfold bind at 1;
    match goal with
    | |- context [for_of (projectFiles fs) _ tt ?s0] =>
        destruct (projects_loop localeCompare now fs allApps (projectFiles fs) s0)
          as (s2 & E2 & Hw2)
    end;
    rewrite E2; exists allApps, s1, s2; (split; [reflexivity|]);
    (split; [|reflexivity]);
    intros p a Hin; destruct (Hw2 p a Hin) as [Hin'|]; [left|now right];
    cbn [written] in Hin'; rewrite Hw1 in Hin'; exact Hin'.
Qed.

(** C3, as the code has it. A failure to create the output directory
    aborts the run before anything is logged or written, and a failure to
    write the master index aborts it with nothing but project indexes
    written; either failure reaches the top-level handler, which logs it.  A
    failure to write a project index is caught by that project's handler,
    which logs it, and the loop over the projects always completes. *)
Theorem fatal_and_caught_write_failures :
  (forall s,
      distExists fs = false -> mkdirSucceeds fs = false ->
      buildIndexes hostname fetch localeCompare now fs s
      = (Throw (MkdirError "dist"), s)) /\
  (forall s,
      writeSucceeds fs "dist/index.json" = false ->
      exists e s',
        buildIndexes hostname fetch localeCompare now fs s = (Throw e, s') /\
        forall p a, In (p, a) (written s') ->
          In (p, a) (written s) \/
          (writeSucceeds fs p = true /\ exists idx, a = ProjectArtifact idx)) /\
  (forall e s',
      buildIndexes hostname fetch localeCompare now fs noEffects = (Throw e, s') ->
      snd (main hostname fetch localeCompare now fs)
      = {| console := (console s' ++ [Uncaught e])%list; written := written s' |}) /\
  (forall allApps s,
      exists s',
        for_of (projectFiles fs) (buildProject localeCompare now fs allApps) tt s
        = (Normal tt, s')) /\
  (forall dir projectConfig allApps s idx s1,
      buildProjectIndex localeCompare now fs dir projectConfig allApps
        {| console := (console s
                       ++ [BuildingProject (toString (cfg_name projectConfig))])%list;
           written := written s |}
      = (Normal (Some idx), s1) ->
      writeSucceeds fs ("dist/" ++ dir ++ ".json") = false ->
      buildProject localeCompare now fs allApps tt (dir, Some projectConfig) s
      = (Normal tt,
         {| console := (console s1
                        ++ [ProjectError ("projects/" ++ dir ++ "/project.json")
                              (WriteError ("dist/" ++ dir ++ ".json"))])%list;
            written := written s1 |})).
Proof.
  split; [|split; [|split; [|split]]].
  - intros s D K.
    destruct (buildIndexes_steps s) as [(_ & _ & E) | (allApps & s0 & s1 & _ & _ & E)];
      [exact E|].
    unfold buildIndexes, mkdirDist in *. rewrite D, K. reflexivity.
  - intros s W.
    destruct (buildIndexes_steps s) as [(_ & _ & E) | (allApps & s0 & s1 & _ & Hw & E)].
    + exists (MkdirError "dist"), s. split; [exact E | auto].
    + destruct (buildMasterIndex_write_fails allApps s1 W) as (e & s' & E' & Hw').
      exists e, s'. rewrite E. split; [exact E'|].
      intros p a Hin. rewrite Hw' in Hin. now apply Hw.
  - intros e s' E. unfold main, try_catch. rewrite E. reflexivity.
  - intros allApps s.
    destruct (projects_loop localeCompare now fs allApps (projectFiles fs) s)
      as (s' & E & _).
    now exists s'.
  - intros dir projectConfig allApps s idx s1 E W.
    rewrite buildProject_parsed. cbv zeta. rewrite E, W. reflexivity.
Qed.

End Driver.

(** ** The reference collation is consistent *)

Lemma lexCompare_antisym (a b : list nat) :
  lexCompare b a = CompOpp (lexCompare a b).
Proof.
  revert b. induction a as [|x a IH]; intros [|y b]; simpl; try reflexivity.
  rewrite (Nat.compare_antisym x y).
  destruct (Nat.compare x y); simpl; auto.
Qed.

Lemma asciiCollate_antisym (a b : string) :
  asciiCollate b a = (- asciiCollate a b)%Z.
Proof.
  unfold asciiCollate.
  rewrite (lexCompare_antisym (map primaryWeight (list_ascii_of_string a))).
  rewrite (lexCompare_antisym (map caseWeight (list_ascii_of_string a))).
  destruct (lexCompare (map primaryWeight _) _); simpl; try reflexivity.
  destruct (lexCompare (map caseWeight _) _); reflexivity.
Qed.

Lemma asciiCollate_total (a b : string) :
  (0 < asciiCollate a b)%Z -> (asciiCollate b a <= 0)%Z.
Proof. rewrite (asciiCollate_antisym a b). lia. Qed.

(** ** The properties on concrete inputs *)

(** C1, as stated, fails: [orphanApp] is filed under [game], which the
    project does not define; its namespaced category is in no entry of the
    index's category list. *)
Lemma category_cover_counterexample :
  exists idx s',
    buildProjectIndex asciiCollate buildTime sunshineFs "sunshine" sunshineConfig
      [orphanApp] noEffects
    = (Normal (Some idx), s') /\
    ~ categoriesCover idx.
Proof.
  eexists _, _. split; [reflexivity|].
  intros H. destruct (H _ (or_introl eq_refl)) as (c & Hin & Heq).
  destruct Hin as [<- | [<- | []]]; discriminate Heq.
Qed.

(** Witness for C1: [zeta] is filed under the defined [client], [orphan]
    under the undefined [game]; both are in the index. *)
Lemma category_listed_iff_defined_witness :
  exists idx,
    buildProjectIndex asciiCollate buildTime sunshineFs "sunshine" sunshineConfig
      [zetaApp; orphanApp] noEffects
    = (Normal (Some idx), noEffects) /\
    In (namespaceApp "sunshine" orphanApp) (apps idx) /\
    (forall c, In c (categories idx) ->
               get "category" (namespaceApp "sunshine" orphanApp)
               <> Some (JStr (nc_id c))) /\
    In (namespaceApp "sunshine" zetaApp) (apps idx) /\
    (exists c, In c (categories idx) /\
               get "category" (namespaceApp "sunshine" zetaApp)
               = Some (JStr (nc_id c))).
Proof.
  eexists. split; [reflexivity|].
  destruct (category_listed_iff_defined asciiCollate buildTime sunshineFs "sunshine"
              sunshineConfig [zetaApp; orphanApp] noEffects _ noEffects eq_refl)
    as (cats & Hcats & _ & _ & Hkept).
  cbn in Hcats. inversion Hcats; subst cats.
  destruct (Hkept orphanApp) as (Ho & _ & Hnone); [right; left; reflexivity|].
  destruct (Hkept zetaApp) as (Hz & Hiff & _); [left; reflexivity|].
  split; [exact Ho|]. split.
  - apply Hnone. intros cat [<- | [<- | []]]; discriminate.
  - split; [exact Hz|]. apply Hiff.
    eexists. split; [left; reflexivity | reflexivity].
Defined.

(** C5, as stated, fails: collation ranks the bracket before the digit,
    code units rank the digit first. *)
Lemma lower_case_order_counterexample :
  exists idx s',
    buildProjectIndex asciiCollate buildTime sunshineFs "sunshine" sunshineConfig
      [guestApp; bracketApp] noEffects
    = (Normal (Some idx), s') /\
    apps idx = [namespaceApp "sunshine" bracketApp; namespaceApp "sunshine" guestApp] /\
    ~ adjacentOrdered lowerCaseLe (apps idx).
Proof.
  eexists _, _. split; [reflexivity|]. split; [reflexivity|].
  intros H.
  destruct (H 0 _ _ eq_refl eq_refl) as [_ Hle].
  specialize (Hle eq_refl). vm_compute in Hle. discriminate Hle.
Qed.

(** Witness for C5: the featured [Zeta] comes before [Alpha]. *)
Lemma output_apps_sorted_by_collation_witness :
  exists idx,
    buildProjectIndex asciiCollate buildTime sunshineFs "sunshine" sunshineConfig
      [alphaApp; zetaApp] noEffects
    = (Normal (Some idx), noEffects) /\
    apps idx = [namespaceApp "sunshine" zetaApp; namespaceApp "sunshine" alphaApp] /\
    adjacentOrdered (collationLe asciiCollate) (apps idx).
Proof.
  eexists. split; [reflexivity|]. split; [reflexivity|].
  apply (proj1 (output_apps_sorted_by_collation asciiCollate buildTime sunshineFs
                  asciiCollate_total)
           "sunshine" sunshineConfig [alphaApp; zetaApp] noEffects _ noEffects).
  reflexivity.
Defined.

(** C3, as stated, fails twice.  With [dist/] missing and not creatable the
    run aborts, but the process ends with status zero; and a project index
    that cannot be written does not abort the run: the master index is
    written and the build completes. *)
Lemma fatal_failures_counterexample :
  (distExists noDistFs = false /\ mkdirSucceeds noDistFs = false /\
   main httpHostname noFetch asciiCollate buildTime noDistFs
   = (0%Z, {| console := [Uncaught (MkdirError "dist")]; written := [] |})) /\
  (writeSucceeds lockedProjectFs "dist/sunshine.json" = false /\
   exists s m,
     main httpHostname noFetch asciiCollate buildTime lockedProjectFs = (0%Z, s) /\
     written s = [("dist/index.json", MasterArtifact m)] /\
     In (ProjectError "projects/sunshine/project.json" (WriteError "dist/sunshine.json"))
        (console s) /\
     In BuildComplete (console s)).
Proof.
  split.
  - repeat split.
  - split; [reflexivity|]. eexists _, _. split; [reflexivity|].
    split; [reflexivity|]. cbn. intuition.
Qed.

(** Witness for C3: both aborting failures and the caught one. *)
Lemma fatal_and_caught_write_failures_witness :
  (distExists noDistFs = false /\ mkdirSucceeds noDistFs = false /\
   buildIndexes httpHostname noFetch asciiCollate buildTime noDistFs noEffects
   = (Throw (MkdirError "dist"), noEffects)) /\
  (writeSucceeds lockedProjectFs "dist/sunshine.json" = false /\
   exists s',
     buildProject asciiCollate buildTime lockedProjectFs [zetaApp; alphaApp] tt
       ("sunshine", Some sunshineConfig) noEffects
     = (Normal tt, s') /\
     written s' = [] /\
     console s'
     = [BuildingProject "Sunshine";
        ProjectError "projects/sunshine/project.json" (WriteError "dist/sunshine.json")]).
Proof.
  split.
  - split; [reflexivity|]. split; [reflexivity|].
    apply (proj1 (fatal_and_caught_write_failures httpHostname noFetch asciiCollate
                    buildTime noDistFs)); reflexivity.
  - split; [reflexivity|]. eexists. split.
    + eapply (proj2 (proj2 (proj2 (proj2
               (fatal_and_caught_write_failures httpHostname noFetch asciiCollate
                  buildTime lockedProjectFs))))
               "sunshine" sunshineConfig [zetaApp; alphaApp] noEffects).
      * reflexivity.
      * reflexivity.
    + split; reflexivity.
Defined.

(** C4 on the code: with the category file of project [beta] malformed, the
    build of [beta] is skipped and [sunshine] is built, but the master phase
    reads the same file outside any handler: the run aborts there and no
    master index is written. *)
Theorem malformed_category_file_aborts_master :
  exists s idx,
    main httpHostname noFetch asciiCollate buildTime malformedCategoriesFs = (0%Z, s) /\
    written s = [("dist/sunshine.json", ProjectArtifact idx)] /\
    lastMaster (written s) = None /\
    console s
    = [ LoadingApps; LoadedApps 2;
        BuildingProject "Sunshine"; BuiltIndex "dist/sunshine.json" 2 2;
        BuildingProject "Beta";
        ProjectError "projects/beta/project.json"
          (ReadOrParseError "projects/beta/categories.json");
        BuildingMaster;
        Uncaught (ReadOrParseError "projects/beta/categories.json") ].
Proof.
  eexists _, _. split; [reflexivity|]. repeat split.
Qed.

(** C6 on the code: no app is filed under [constructor], yet the master
    count of that category is not the number zero but the function every
    object literal inherits under that name. *)
Theorem inherited_key_count_is_not_a_number :
  exists s m c,
    main httpHostname noFetch asciiCollate buildTime constructorFs = (0%Z, s) /\
    lastMaster (written s) = Some m /\
    In c (m_categories m) /\
    originalId c = Some (JStr "constructor") /\
    appsInCategory "constructor" [zetaApp; alphaApp] = 0 /\
    count c = NonNumeric.
Proof.
  eexists _, _, _. split; [reflexivity|]. split; [reflexivity|].
  split; [right; left; reflexivity|]. repeat split.
Qed.

(** Witness for C7: all three lists present; only [alpha] survives. *)
Lemma filters_run_in_order_and_shrink_witness :
  filterIncludeOnly filteringConfig [zetaApp; alphaApp; orphanApp; guestApp]
  = [zetaApp; alphaApp; orphanApp] /\
  filterExcludeApps filteringConfig [zetaApp; alphaApp; orphanApp]
  = [alphaApp; orphanApp] /\
  filterFeaturedCategories filteringConfig [alphaApp; orphanApp] = [alphaApp] /\
  filterIncludeOnly sunshineConfig [zetaApp; alphaApp] = [zetaApp; alphaApp] /\
  exists idx,
    buildProjectIndex asciiCollate buildTime sunshineFs "sunshine" filteringConfig
      [zetaApp; alphaApp; orphanApp; guestApp] noEffects
    = (Normal (Some idx), noEffects) /\
    Permutation
      (map (namespaceApp "sunshine")
         (applyFilters filteringConfig [zetaApp; alphaApp; orphanApp; guestApp]))
      (apps idx) /\
    List.length (apps idx) <= 4.
Proof.
  pose proof (filters_run_in_order_and_shrink asciiCollate buildTime sunshineFs
                filteringConfig [zetaApp; alphaApp; orphanApp; guestApp])
    as (_ & Hinc & Hexc & Hfeat & _ & _ & Hidx).
  pose proof (filters_run_in_order_and_shrink asciiCollate buildTime sunshineFs
                sunshineConfig [zetaApp; alphaApp])
    as (_ & Hplain & _).
  split.
  { destruct (Hinc [zetaApp; alphaApp; orphanApp; guestApp]) as (_ & H & _).
    rewrite (H _ _ eq_refl). reflexivity. }
  split.
  { destruct (Hexc [zetaApp; alphaApp; orphanApp]) as (_ & H & _).
    rewrite (H _ _ eq_refl). reflexivity. }
  split.
  { destruct (Hfeat [alphaApp; orphanApp]) as (_ & H & _).
    rewrite (H _ _ eq_refl). reflexivity. }
  split.
  { destruct (Hplain [zetaApp; alphaApp]) as (H & _).
    apply H. left. reflexivity. }
  eexists. split; [reflexivity|].
  apply (Hidx "sunshine" noEffects _ noEffects). reflexivity.
Defined.

(** Witness for C8: the categories of the [sunshine] index and of the
    master index of [sunshineFs]. *)
Lemma namespaced_id_round_trip_witness :
  (exists idx,
     buildProjectIndex asciiCollate buildTime sunshineFs "sunshine" sunshineConfig
       [zetaApp; alphaApp] noEffects
     = (Normal (Some idx), noEffects) /\
     map nc_id (categories idx) = ["sunshine:client"; "sunshine:tool"] /\
     forall c, In c (categories idx) ->
       nc_id c = "sunshine" ++ ":" ++ toString (originalId c) /\
       stripPrefix ("sunshine" ++ ":") (nc_id c) = Some (toString (originalId c)) /\
       (forall id, originalId c = Some (JStr id) ->
                   stripPrefix ("sunshine" ++ ":") (nc_id c) = Some id)) /\
  (exists s' m,
     buildMasterIndex asciiCollate buildTime sunshineFs [zetaApp; alphaApp] noEffects
     = (Normal tt, s') /\
     written s' = (written noEffects ++ [("dist/index.json", MasterArtifact m)])%list /\
     forall c, In c (m_categories m) ->
       exists projectId,
         nc_project c = Some projectId /\
         nc_id c = projectId ++ ":" ++ toString (originalId c) /\
         stripPrefix (projectId ++ ":") (nc_id c) = Some (toString (originalId c)) /\
         (forall id, originalId c = Some (JStr id) ->
                     stripPrefix (projectId ++ ":") (nc_id c) = Some id)).
Proof.
  pose proof (namespaced_id_round_trip asciiCollate buildTime sunshineFs) as [P Mst].
  split.
  - eexists. split; [reflexivity|]. split; [reflexivity|].
    apply (P "sunshine" sunshineConfig [zetaApp; alphaApp] noEffects _ noEffects).
    reflexivity.
  - eexists.
    match goal with
    | |- exists m, ?run = (Normal tt, ?s') /\ _ =>
        destruct (Mst [zetaApp; alphaApp] noEffects s' eq_refl) as (m & Hw & Hc)
    end.
    exists m. split; [reflexivity|]. split; [exact Hw | exact Hc].
Defined.

(** Witness for C10: directory [sunshine], config id [sunshine-host]. *)
Lemma namespace_prefix_is_directory_name_witness :
  exists s' idx,
    buildProject asciiCollate buildTime sunshineFs [zetaApp; alphaApp] tt
      ("sunshine", Some renamedConfig) noEffects
    = (Normal tt, s') /\
    written s' = [("dist/sunshine.json", ProjectArtifact idx)] /\
    pi_id (project idx) = Some (JStr "sunshine-host") /\
    map nc_id (categories idx) = ["sunshine:client"; "sunshine:tool"] /\
    (forall c, In c (categories idx) ->
               nc_id c <> "sunshine-host" ++ ":" ++ toString (originalId c)).
Proof.
  eexists.
  match goal with
  | |- exists idx, ?run = (Normal tt, ?s') /\ _ =>
      destruct (namespace_prefix_is_directory_name asciiCollate buildTime sunshineFs
                  "sunshine" renamedConfig [zetaApp; alphaApp] noEffects
                  (Normal tt) s' eq_refl)
        as [Hw | (idx & Hw & Hid & _ & _ & Hne)]
  end.
  - discriminate Hw.
  - exists idx. split; [reflexivity|].
    cbn [written noEffects app] in Hw. inversion Hw; subst idx.
    split; [reflexivity|]. split; [reflexivity|]. split; [reflexivity|].
    apply (Hne "sunshine-host" eq_refl). discriminate.
Defined.

(** * Further properties of the scripts *)

(** ** The enrichment client *)

Lemma spanNonSlash_append (a b : string) :
  slashFree a = true -> endsSegment b = true -> spanNonSlash (a ++ b) = (a, b).
Proof.
  intros Ha Hb. induction a as [|c a IH]; simpl.
  - destruct b as [|c r]; [reflexivity|]. simpl in Hb. simpl. now rewrite Hb.
  - simpl in Ha. apply andb_prop in Ha as [Hc Ha].
    apply negb_true_iff in Hc. rewrite Hc, (IH Ha). reflexivity.
Qed.

Lemma matchRepoAt_repository (owner repo rest : string) :
  slashFree owner = true -> owner <> "" ->
  slashFree repo = true -> repo <> "" ->
  endsSegment rest = true ->
  matchRepoAt ("github.com/" ++ owner ++ "/" ++ repo ++ rest) = Some (owner, repo).
Proof.
  intros Ho Hone Hr Hrne Hrest. unfold matchRepoAt.
  rewrite stripPrefix_append.
  rewrite (spanNonSlash_append owner ("/" ++ repo ++ rest) Ho eq_refl).
  destruct owner as [|c owner]; [congruence|]. cbn [isEmpty append].
  rewrite (spanNonSlash_append repo rest Hr Hrest).
  destruct repo; [congruence | reflexivity].
Qed.

Lemma execRepo_unfold (s : string) :
  execRepo s
  = match matchRepoAt s with
    | Some m => Some m
    | None => match s with EmptyString => None | String _ r => execRepo r end
    end.
Proof. destruct s; reflexivity. Qed.

Lemma execRepo_skip (c : ascii) (s : string) :
  c <> "g"%char -> execRepo (String c s) = execRepo s.
Proof.
  intros Hc. rewrite execRepo_unfold. unfold matchRepoAt. cbn [stripPrefix].
  destruct (Ascii.eqb_spec "g"%char c); [congruence | reflexivity].
Qed.

Lemma list_ascii_of_string_append (a b : string) :
  list_ascii_of_string (a ++ b)
  = (list_ascii_of_string a ++ list_ascii_of_string b)%list.
Proof. induction a; simpl; congruence. Qed.

Lemma string_of_list_ascii_app (l1 l2 : list ascii) :
  string_of_list_ascii (l1 ++ l2)
  = string_of_list_ascii l1 ++ string_of_list_ascii l2.
Proof. induction l1; simpl; congruence. Qed.

Lemma rev_string_append (a b : string) :
  rev_string (a ++ b) = rev_string b ++ rev_string a.
Proof.
  unfold rev_string.
  now rewrite list_ascii_of_string_append, rev_app_distr, string_of_list_ascii_app.
Qed.

Lemma rev_string_involutive (s : string) : rev_string (rev_string s) = s.
Proof.
  unfold rev_string.
  now rewrite list_ascii_of_string_of_list_ascii, rev_involutive,
    string_of_list_ascii_of_string.
Qed.

Lemma stripPrefix_Some (p s r : string) : stripPrefix p s = Some r -> s = p ++ r.
Proof.
  revert s. induction p as [|a p IH]; intros s H; simpl in H.
  - now inversion H.
  - destruct s as [|b s]; [discriminate|].
    destruct (Ascii.eqb_spec a b) as [->|]; [|discriminate].
    simpl. f_equal. now apply IH.
Qed.

(** X1. [fetchGitHubMetadata] never throws and never writes.  It either
    leaves the console alone, or it has caught what was thrown inside: then it
    returns null and has logged exactly one warning. *)
Theorem metadata_client_never_throws hostname fetch repoUrl s :
  exists r s',
    fetchGitHubMetadata hostname fetch repoUrl s = (Normal r, s') /\
    written s' = written s /\
    (console s' = console s \/
     (r = None /\ exists e, console s' = (console s ++ [MetadataWarning e])%list)).
Proof.
  unfold fetchGitHubMetadata.
  destruct (negb (truthy repoUrl)); [exists None, s; auto|].
  unfold try_catch.
  destruct (requestMetadata hostname fetch repoUrl s) as [[r|e] s1] eqn:E;
    apply requestMetadata_state in E; subst s1.
  - exists r, s. auto.
  - unfold bind, log, ret. eexists _, _. split; [reflexivity|].
    split; [reflexivity|]. right. split; [reflexivity|]. now exists e.
Qed.

(** X2. For a link [https://github.com/owner/repo] (with or without more
    path behind it) that the URL parser places on [github.com], the client
    asks [https://api.github.com/repos/owner/repo], with a trailing [.git] of
    the repository name taken off, and a successful answer with a body is
    returned as its metadata, with nothing logged. *)
Theorem repository_link_is_enriched hostname fetch owner repo rest data s :
  slashFree owner = true -> owner <> "" ->
  slashFree repo = true -> repo <> "" ->
  endsSegment rest = true ->
  hostname ("https://github.com/" ++ owner ++ "/" ++ repo ++ rest)
  = Some "github.com" ->
  fetch ("https://api.github.com/repos/" ++ owner ++ "/" ++ stripGitSuffix repo)
  = Response true (Some data) ->
  data <> JNull ->
  fetchGitHubMetadata hostname fetch
    (Some (JStr ("https://github.com/" ++ owner ++ "/" ++ repo ++ rest))) s
  = (Normal (Some (metadataOf data)), s).
Proof.
  intros Ho Hone Hr Hrne Hrest Hhost Hfetch Hdata.
  assert (Hexec : execRepo ("https://github.com/" ++ owner ++ "/" ++ repo ++ rest)
                  = Some (owner, repo)).
  { change ("https://github.com/" ++ owner ++ "/" ++ repo ++ rest)
      with (String "h" (String "t" (String "t" (String "p" (String "s"
              (String ":" (String "/" (String "/"
                 ("github.com/" ++ owner ++ "/" ++ repo ++ rest))))))))).
    do 8 (rewrite execRepo_skip by discriminate).
    rewrite execRepo_unfold.
    now rewrite (matchRepoAt_repository owner repo rest Ho Hone Hr Hrne Hrest). }
  assert (Htruthy : truthy (Some (JStr ("https://github.com/" ++ owner ++ "/"
                                          ++ repo ++ rest))) = true)
    by reflexivity.
  remember ("https://github.com/" ++ owner ++ "/" ++ repo ++ rest) as url.
  unfold fetchGitHubMetadata. rewrite Htruthy. cbn [negb].
  unfold try_catch, requestMetadata. cbn [toString toStringJ].
  rewrite Hhost, Hexec, Hfetch. cbn [String.eqb Ascii.eqb Bool.eqb negb].
  unfold ret. destruct data; congruence.
Qed.

Lemma stripGitSuffix_cases (repo : string) :
  stripGitSuffix repo = repo \/ repo = stripGitSuffix repo ++ ".git".
Proof.
  unfold stripGitSuffix.
  destruct (stripPrefix "tig." (rev_string repo)) as [r|] eqn:E; [|now left].
  right. apply stripPrefix_Some in E.
  rewrite <- (rev_string_involutive repo), E, rev_string_append.
  reflexivity.
Qed.

(** X3. [repo.replace(/\.git$/, '')] takes off one trailing [.git] and
    nothing else: a name is either returned as it is or is the result
    followed by [.git]. *)
Theorem git_suffix_is_stripped_once :
  (forall name, stripGitSuffix (name ++ ".git") = name) /\
  (forall repo,
      stripGitSuffix repo = repo \/ repo = stripGitSuffix repo ++ ".git").
Proof.
  split.
  - intros name. unfold stripGitSuffix.
    rewrite rev_string_append.
    change (rev_string ".git") with "tig.".
    rewrite stripPrefix_append. apply rev_string_involutive.
  - exact stripGitSuffix_cases.
Qed.

(** X4. The object the client returns holds at most the five keys [stars],
    [openIssues], [forks], [lastUpdated] and [license], each read from its
    field of the response; [license] is always there, and is null unless the
    response has a license with a truthy [spdx_id]. *)
Theorem metadata_is_a_narrow_projection data :
  get "stars" (metadataOf data) = prop data "stargazers_count" /\
  get "openIssues" (metadataOf data) = prop data "open_issues_count" /\
  get "forks" (metadataOf data) = prop data "forks_count" /\
  get "lastUpdated" (metadataOf data) = prop data "updated_at" /\
  get "license" (metadataOf data) = Some (licenseOf data) /\
  (forall k, get k (metadataOf data) <> None ->
             In k ["stars"; "openIssues"; "forks"; "lastUpdated"; "license"]) /\
  (licenseOf data = JNull \/
   exists license,
     prop data "license" = Some license /\
     prop license "spdx_id" = Some (licenseOf data) /\
     truthy (Some (licenseOf data)) = true).
Proof.
  unfold metadataOf.
  destruct (prop data "stargazers_count"), (prop data "open_issues_count"),
    (prop data "forks_count"), (prop data "updated_at");
    cbn [optField app get String.eqb Ascii.eqb Bool.eqb];
    (repeat (split; [reflexivity|]));
    (split;
     [ intros k Hk;
       repeat match type of Hk with
              | context [String.eqb k ?x] =>
                  destruct (String.eqb_spec k x);
                  [subst; cbn [In]; tauto|]
              end;
       now elim Hk
     | unfold licenseOf;
       destruct (prop data "license") as [[]|]; try (now left);
       match goal with
       | |- context [prop ?l "spdx_id"] =>
           destruct (prop l "spdx_id") as [v|] eqn:E; [|now left];
           destruct (truthy (Some v)) eqn:T; [|now left];
           right; exists l; auto
       end ]).
Qed.

(** ** The loader *)

Lemma loadApps_entries hostname fetch l acc s :
  exists new s',
    for_of l (loadApp hostname fetch) acc s = (Normal (acc ++ new)%list, s') /\
    written s' = written s /\
    Forall2 (fun app entry => exists githubMetadata,
                 entry = indexEntry app githubMetadata)
      (parsedApps l) new.
Proof.
  revert acc s. induction l as [|[file [app|]] l IH]; intros acc s; cbn [for_of].
  - exists [], s. rewrite app_nil_r. repeat split. constructor.
  - destruct (loadApp_parsed hostname fetch acc file app s) as (r & s1 & E & L).
    unfold bind. rewrite L.
    destruct (IH (acc ++ [indexEntry app r])%list s1) as (new & s' & E' & Hw & Hf).
    exists (indexEntry app r :: new), s'.
    rewrite E', <- app_assoc. split; [reflexivity|]. split.
    + rewrite Hw. now apply (enrich_written hostname fetch app s (Normal r)).
    + cbn. constructor; [now exists r | exact Hf].
  - unfold bind. rewrite loadApp_malformed.
    destruct (IH acc {| console := (console s
                                    ++ [AppError file (ReadOrParseError file)])%list;
                        written := written s |}) as (new & s' & E' & Hw & Hf).
    exists new, s'. split; [exact E'|]. split; [now rewrite Hw | exact Hf].
Qed.

Lemma indexEntry_get (app : obj) (githubMetadata : option obj) (k : string) :
  k <> "github" -> get k (indexEntry app githubMetadata) = get k app.
Proof.
  intros Hk. destruct githubMetadata; simpl; [now apply get_set_other | reflexivity].
Qed.

Lemma parsedApps_length (files : list (string * option obj)) :
  List.length (parsedApps files) <= List.length files.
Proof.
  unfold parsedApps.
  induction files as [|[file [a|]] files IH];
    cbn [flat_map snd List.app List.length] in *; lia.
Qed.

Lemma entries_keep_field (k : string) (records entries : list obj) :
  k <> "github" ->
  Forall2 (fun app entry => exists githubMetadata,
               entry = indexEntry app githubMetadata)
    records entries ->
  map (get k) entries = map (get k) records.
Proof.
  intros Hk. induction 1 as [|app entry records entries [r ->] _ IH];
    [reflexivity|].
  cbn [map]. now rewrite IH, indexEntry_get.
Qed.

(** X5. [loadAllApps] never throws and writes nothing.  It returns one entry
    per file that parses, in discovery order, each the file's record merged
    with its metadata; so ids and names come out in file order and no more
    entries than files. *)
Theorem loader_keeps_file_order hostname fetch fs s :
  exists allApps s',
    loadAllApps hostname fetch fs s = (Normal allApps, s') /\
    written s' = written s /\
    Forall2 (fun app entry => exists githubMetadata,
                 entry = indexEntry app githubMetadata)
      (parsedApps (appFiles fs)) allApps /\
    map (get "id") allApps = map (get "id") (parsedApps (appFiles fs)) /\
    map (get "name") allApps = map (get "name") (parsedApps (appFiles fs)) /\
    List.length allApps <= List.length (appFiles fs).
Proof.
  destruct (loadApps_entries hostname fetch (appFiles fs) [] s)
    as (allApps & s' & E & Hw & Hf).
  exists allApps, s'. split; [exact E|]. split; [exact Hw|]. split; [exact Hf|].
  split; [now apply entries_keep_field|]. split; [now apply entries_keep_field|].
  rewrite <- (Forall2_length Hf). apply parsedApps_length.
Qed.

(** ** The project builder, further *)

Section BuilderFurther.

Variable localeCompare : string -> string -> Z.
Variable now : string.
Variable fs : FileSystem.

(** X6. A project without a category file is skipped: the builder returns
    null after logging that the file was not found, and the project's
    iteration ends normally with nothing written and no error logged. *)
Theorem project_without_categories_is_skipped dir projectConfig allApps s :
  assoc dir (categoryFiles fs) = None ->
  buildProjectIndex localeCompare now fs dir projectConfig allApps s
  = (Normal None,
     {| console := (console s
                    ++ [CategoriesNotFound dir ("projects/" ++ dir ++ "/categories.json")])%list;
        written := written s |}) /\
  buildProject localeCompare now fs allApps tt (dir, Some projectConfig) s
  = (Normal tt,
     {| console := (console s
                    ++ [BuildingProject (toString (cfg_name projectConfig));
                        CategoriesNotFound dir ("projects/" ++ dir ++ "/categories.json")])%list;
        written := written s |}).
Proof.
  intros H. split.
  - unfold buildProjectIndex. rewrite H. reflexivity.
  - rewrite buildProject_parsed. cbv zeta.
    unfold buildProjectIndex. rewrite H. unfold bind, log, ret. cbn [console written].
    now rewrite <- app_assoc.
Qed.

Lemma appsInCategory_Subseq (k : string) (l l' : list obj) :
  Subseq l l' -> appsInCategory k l <= appsInCategory k l'.
Proof.
  unfold appsInCategory.
  induction 1 as [|x l l' H IH|x l l' H IH]; cbn [filter]; [lia| |];
    destruct (String.eqb (categoryOf x) k); cbn [List.length]; lia.
Qed.

(** X7. In a project index the count of a category whose id is not a name
    [Object.prototype] defines is the number of apps that passed the
    project's filters and are filed under it; it never exceeds the number of
    such apps in the full set. *)
Theorem project_counts_filtered_apps projectId projectConfig allApps s idx s' :
  buildProjectIndex localeCompare now fs projectId projectConfig allApps s
  = (Normal (Some idx), s') ->
  forall c, In c (categories idx) ->
    inherited (toString (originalId c)) = false ->
    count c
    = Count (appsInCategory (toString (originalId c))
               (applyFilters projectConfig allApps)) /\
    appsInCategory (toString (originalId c)) (applyFilters projectConfig allApps)
    <= appsInCategory (toString (originalId c)) allApps.
Proof.
  intros H c Hin Hk.
  apply buildProjectIndex_Some in H as (cats & _ & _ & Hc & _).
  rewrite Hc in Hin. apply in_map_iff in Hin as (cat & <- & _).
  cbn [count originalId namespaceCategory] in *. split.
  - now apply countCategories_counts.
  - apply appsInCategory_Subseq, applyFilters_Subseq.
Qed.

(** X8. The categories of a project index follow the definition file: one
    per definition and in its order, definitions with the same id not being
    merged; each has the namespaced id and the original id of its definition,
    and every other field the definition brings is passed on as it is, a
    [project] field included, for the project builder writes none. *)
Theorem project_categories_follow_definitions projectId projectConfig allApps s idx s' :
  buildProjectIndex localeCompare now fs projectId projectConfig allApps s
  = (Normal (Some idx), s') ->
  exists categoriesData,
    assoc projectId (categoryFiles fs) = Some (Some categoriesData) /\
    Forall2
      (fun cat c =>
         nc_id c = projectId ++ ":" ++ toString (get "id" cat) /\
         originalId c = get "id" cat /\
         forall k, k <> "id" -> k <> "originalId" -> k <> "count" ->
                   categoryField c k = get k cat)
      categoriesData (categories idx).
Proof.
  intros H. apply buildProjectIndex_Some in H as (cats & Hcats & _ & Hc & _).
  exists cats. split; [exact Hcats|]. rewrite Hc. clear Hc Hcats.
  induction cats as [|cat cats IH]; cbn [map]; constructor; [|exact IH].
  split; [reflexivity|]. split; [reflexivity|].
  intros k Hid Horig _. unfold categoryField.
  cbn [nc_id originalId nc_project nc_rest namespaceCategory].
  destruct (String.eqb_spec k "id"); [contradiction|].
  destruct (String.eqb_spec k "originalId"); [contradiction|].
  destruct (String.eqb_spec k "project") as [->|]; reflexivity.
Qed.

(** X9. Namespacing touches the [category] field only: every app of a
    project index is an app that passed the filters, with every other field
    (id, name, featured flag, metadata, anything else) as it was, and there
    are as many of them as passed the filters. *)
Theorem namespacing_keeps_other_fields projectId projectConfig allApps s idx s' :
  buildProjectIndex localeCompare now fs projectId projectConfig allApps s
  = (Normal (Some idx), s') ->
  List.length (apps idx) = List.length (applyFilters projectConfig allApps) /\
  forall app, In app (apps idx) ->
    exists original,
      In original (applyFilters projectConfig allApps) /\
      get "category" app = Some (JStr (projectId ++ ":" ++ categoryOf original)) /\
      forall k, k <> "category" -> get k app = get k original.
Proof.
  intros H. pose proof (buildProjectIndex_apps _ _ _ _ _ _ _ _ _ H) as Hperm.
  split.
  - now rewrite <- (Permutation_length Hperm), length_map.
  - intros app Hin. apply Permutation_sym in Hperm.
    apply (Permutation_in _ Hperm) in Hin.
    apply in_map_iff in Hin as (original & <- & Hin).
    exists original. split; [exact Hin|].
    split; [apply namespaceApp_category|].
    intros k Hk. unfold namespaceApp. now apply get_set_other.
Qed.

End BuilderFurther.

(** ** Sorting, further *)

Lemma appLe_comparator localeCompare (a b : obj) :
  appLe localeCompare a b -> (comparatorValue localeCompare a b <= 0)%Z.
Proof.
  unfold appLe, comparatorValue, collationLe.
  destruct (featured a), (featured b); cbn [andb negb]; intros [H1 H2];
    try lia; auto.
Qed.

Lemma adjacentOrdered_Sorted localeCompare (l : list obj) :
  adjacentOrdered (collationLe localeCompare) l -> Sorted (appLe localeCompare) l.
Proof.
  induction l as [|a r IH]; intros H; constructor.
  - apply IH. intros i x y Hx Hy. exact (H (S i) x y Hx Hy).
  - destruct r as [|b r]; constructor.
    exact (H 0 a b eq_refl eq_refl).
Qed.

Lemma sorted_is_returned localeCompare (l : list obj) :
  Forall hasStringName l ->
  Sorted (appLe localeCompare) l ->
  toSorted localeCompare l = Normal l.
Proof.
  induction l as [|a r IH]; intros Hn Hs; [reflexivity|].
  inversion Hn as [|? ? Ha Hr]; subst.
  apply Sorted_inv in Hs as [Hs Hhd].
  cbn [toSorted]. rewrite (IH Hr Hs).
  destruct r as [|b r]; [reflexivity|].
  cbn [insertSorted]. rewrite (compareApps_string_name localeCompare a b Ha).
  apply HdRel_inv in Hhd. apply appLe_comparator in Hhd.
  apply Z.leb_le in Hhd. now rewrite Hhd.
Qed.

(** X10. Sorting is idempotent.  A list of apps with string names that is
    already in order (featured first, then by [localeCompare]) comes back
    unchanged; so, under a collation that never ranks two names each after
    the other, sorting the sorted list returns it as it is. *)
Theorem sorting_is_idempotent localeCompare :
  (forall l,
      Forall hasStringName l ->
      adjacentOrdered (collationLe localeCompare) l ->
      toSorted localeCompare l = Normal l) /\
  ((forall a b, (0 < localeCompare a b)%Z -> (localeCompare b a <= 0)%Z) ->
   forall l l',
     Forall hasStringName l ->
     toSorted localeCompare l = Normal l' ->
     toSorted localeCompare l' = Normal l').
Proof.
  split.
  - intros l Hn Ho. apply sorted_is_returned; [exact Hn|].
    now apply adjacentOrdered_Sorted.
  - intros Htotal l l' Hn Hs. apply sorted_is_returned.
    + eapply Permutation_Forall; [|exact Hn].
      now apply (toSorted_Permutation localeCompare).
    + now apply (toSorted_Sorted localeCompare Htotal l).
Qed.

Lemma Sorted_weaken {A} (R R' : A -> A -> Prop) (l : list A) :
  (forall a b, R a b -> R' a b) -> Sorted R l -> Sorted R' l.
Proof.
  intros Hw. induction 1 as [|a l Hl IH Hhd]; constructor; [exact IH|].
  destruct Hhd; constructor. now apply Hw.
Qed.

Lemma StronglySorted_comesBefore {A} (R : A -> A -> Prop) (l : list A) (a b : A) :
  StronglySorted R l -> comesBefore l a b -> R a b.
Proof.
  intros Hs (i & j & Hij & Ha & Hb). revert i j Hij Ha Hb.
  induction Hs as [|x r Hr IH Hall]; intros i j Hij Ha Hb.
  - now destruct i.
  - destruct j as [|j]; [lia|]. cbn [nth_error] in Hb.
    destruct i as [|i].
    + inversion Ha; subst. rewrite Forall_forall in Hall.
      apply Hall. eapply nth_error_In. exact Hb.
    + apply (IH i j); [lia | exact Ha | exact Hb].
Qed.

Lemma toSorted_featured_first localeCompare (l l' : list obj) :
  (forall a b, (0 < localeCompare a b)%Z -> (localeCompare b a <= 0)%Z) ->
  toSorted localeCompare l = Normal l' ->
  StronglySorted (fun a b => featured b = true -> featured a = true) l'.
Proof.
  intros Htotal H. apply Sorted_StronglySorted.
  - intros a b c Hab Hbc Hc. auto.
  - apply (Sorted_weaken (appLe localeCompare)); [now intros a b [Hf _]|].
    now apply (toSorted_Sorted localeCompare Htotal l).
Qed.

(** X11. For apps whose names are strings, under a collation that never
    ranks two names each after the other, no app that is not featured comes
    anywhere before a featured one, at whatever distance, in the output of
    the sort and so in the apps of a project index. *)
Theorem featured_apps_come_first localeCompare now fs :
  (forall a b, (0 < localeCompare a b)%Z -> (localeCompare b a <= 0)%Z) ->
  (forall l l',
      Forall hasStringName l ->
      toSorted localeCompare l = Normal l' ->
      forall a b, comesBefore l' a b -> featured b = true -> featured a = true) /\
  (forall projectId projectConfig allApps s idx s',
      Forall hasStringName allApps ->
      buildProjectIndex localeCompare now fs projectId projectConfig allApps s
      = (Normal (Some idx), s') ->
      forall a b, comesBefore (apps idx) a b ->
                  featured b = true -> featured a = true).
Proof.
  intros Htotal. split.
  - intros l l' _ H a b Hab.
    exact (StronglySorted_comesBefore _ l' a b
             (toSorted_featured_first localeCompare l l' Htotal H) Hab).
  - intros projectId projectConfig allApps s idx s' _ H a b Hab.
    apply buildProjectIndex_Some in H as (_ & _ & Hs & _).
    exact (StronglySorted_comesBefore _ _ a b
             (toSorted_featured_first localeCompare _ _ Htotal Hs) Hab).
Qed.

(** ** The master index, further *)

Lemma find_app_first {A} (f : A -> bool) (l l' : list A) :
  find f (l ++ l')
  = match find f l with Some x => Some x | None => find f l' end.
Proof. induction l as [|x l IH]; cbn [find List.app]; [|destruct (f x)]; auto. Qed.

Lemma NoDup_snoc {A} (l : list A) (x : A) :
  NoDup l -> ~ In x l -> NoDup (l ++ [x]).
Proof.
  induction 1 as [|y l Hy Hl IH]; cbn [List.app]; intros Hx.
  - constructor; [intros [] | constructor].
  - constructor.
    + rewrite in_app_iff. intros [H | [H | []]]; [auto|]. subst. apply Hx. now left.
    + apply IH. intros H. apply Hx. now right.
Qed.

(** The loop body keeps the invariant [collectedFrom]. *)
Lemma collectStep_invariant ds acc d :
  collectedFrom ds acc -> collectedFrom (ds ++ [d]) (collectStep acc d).
Proof.
  destruct acc as [seen data]. destruct d as [projectId cat].
  intros (Hkeys & Hnd & Hall & Hent).
  unfold collectStep, addCategory. cbn [fst snd] in *.
  set (k := projectId ++ ":" ++ toString (get "id" cat)).
  destruct (existsb (String.eqb k) seen) eqn:E.
  - repeat split; cbn [fst snd]; auto.
    + intros d Hd. apply in_app_iff in Hd as [Hd | [<- | []]]; [now apply Hall|].
      apply existsb_exists in E as (k' & Hin & Heq).
      apply String.eqb_eq in Heq. now subst k'.
    + now apply (Hent k0 e).
    + now apply (Hent k0 e).
    + unfold firstDefinition. rewrite find_app_first.
      destruct (Hent k0 e H) as (_ & _ & Hf). unfold firstDefinition in Hf.
      now rewrite Hf.
  - assert (Hnew : ~ In k seen).
    { intros Hin. apply Bool.not_true_iff_false in E. apply E.
      apply existsb_exists. exists k. split; [exact Hin | apply String.eqb_refl]. }
    repeat split; cbn [fst snd].
    + rewrite map_app. cbn [map fst]. now rewrite Hkeys.
    + now apply NoDup_snoc.
    + intros d Hd. rewrite in_app_iff.
      apply in_app_iff in Hd as [Hd | [<- | []]]; [left; now apply Hall|].
      right. now left.
    + apply in_app_iff in H as [H | [H | []]]; [now apply (Hent k0 e)|].
      now inversion H.
    + apply in_app_iff in H as [H | [H | []]]; [now apply (Hent k0 e)|].
      now inversion H.
    + unfold firstDefinition. rewrite find_app_first.
      apply in_app_iff in H as [H | [H | []]].
      * destruct (Hent k0 e H) as (_ & _ & Hf). unfold firstDefinition in Hf.
        now rewrite Hf.
      * inversion H; subst k0 e. cbn [ce_project ce_rest].
        destruct (find _ ds) as [d|] eqn:F.
        -- apply find_some in F as [Hd Heq]. apply String.eqb_eq in Heq.
           elim Hnew. rewrite <- Heq. now apply Hall.
        -- cbn [find]. unfold namespacedIdOf at 1. cbn [fst snd]. fold k.
           now rewrite String.eqb_refl.
Qed.

Lemma collectStep_fold ds0 ds acc :
  collectedFrom ds0 acc ->
  collectedFrom (ds0 ++ ds) (fold_left collectStep ds acc).
Proof.
  revert ds0 acc. induction ds as [|d ds IH]; intros ds0 acc H; cbn [fold_left].
  - now rewrite app_nil_r.
  - replace (ds0 ++ d :: ds)%list with ((ds0 ++ [d]) ++ ds)%list
      by now rewrite <- app_assoc.
    apply IH. now apply collectStep_invariant.
Qed.

Lemma addCategory_as_steps projectId data acc :
  fold_left (addCategory projectId) data acc
  = fold_left collectStep (map (pair projectId) data) acc.
Proof.
  revert acc. induction data as [|cat data IH]; intros acc; cbn; [reflexivity|].
  apply IH.
Qed.

(** A category loop that completes has read every file, and has run the body
    over all definitions in reading order. *)
Lemma collect_as_fold l acc r s s' :
  for_of l collectCategoryFile acc s = (Normal r, s') ->
  r = fold_left collectStep (categoryDefinitions l) acc /\
  Forall (fun entry => snd entry <> None) l.
Proof.
  revert acc s. induction l as [|[projectId [data|]] l IH]; intros acc s;
    cbn [for_of].
  - unfold ret. intros H. inversion H. split; [reflexivity | constructor].
  - unfold bind, collectCategoryFile, ret. intros H.
    apply IH in H as [-> Hall]. split.
    + unfold categoryDefinitions. cbn [flat_map fst snd].
      now rewrite fold_left_app, addCategory_as_steps.
    + constructor; [discriminate | exact Hall].
  - unfold bind, collectCategoryFile, throw. discriminate.
Qed.

Lemma collect_returns l acc :
  Forall (fun entry => snd entry <> None) l ->
  exists r, forall s, for_of l collectCategoryFile acc s = (Normal r, s).
Proof.
  intros H. revert acc. induction H as [|[projectId [data|]] l Hx Hl IH];
    intros acc; cbn [for_of].
  - now eexists.
  - destruct (IH (fold_left (addCategory projectId) data acc)) as [r Hr].
    exists r. intros s. unfold bind, collectCategoryFile, ret. apply Hr.
  - now elim Hx.
Qed.

Section MasterFurther.

Variable localeCompare : string -> string -> Z.
Variable now : string.
Variable fs : FileSystem.

Lemma master_collected allApps s s' :
  buildMasterIndex localeCompare now fs allApps s = (Normal tt, s') ->
  exists m acc,
    written s' = (written s ++ [("dist/index.json", MasterArtifact m)])%list /\
    collectedFrom (categoryDefinitions (categoryFiles fs)) acc /\
    m_categories m = map (withCount (countCategories allApps)) (map snd (snd acc)) /\
    Forall (fun entry => snd entry <> None) (categoryFiles fs).
Proof.
  intros H.
  apply buildMasterIndex_Normal in H as (collected & sorted & Hc & _ & _ & Hw).
  destruct (collect_as_fold _ _ _ _ _ (Hc noEffects)) as [Hfold Hall].
  eexists _, collected. split; [exact Hw|]. split; [|split; [reflexivity | exact Hall]].
  rewrite Hfold.
  apply (collectStep_fold [] (categoryDefinitions (categoryFiles fs)) ([], [])).
  repeat split; cbn; try constructor; intros; contradiction.
Qed.

Lemma master_ids m acc allApps :
  collectedFrom (categoryDefinitions (categoryFiles fs)) acc ->
  m_categories m = map (withCount (countCategories allApps)) (map snd (snd acc)) ->
  map nc_id (m_categories m) = fst acc.
Proof.
  intros (Hkeys & _ & _ & Hent) ->. rewrite Hkeys, !map_map. cbn [nc_id withCount].
  apply map_ext_in. intros [k e] Hin. cbn [fst snd]. now apply (Hent k e).
Qed.

(** X12. The categories of the master index have pairwise distinct ids, and
    every definition of every category file is represented: its namespaced id
    is the id of a master category.  A master index is only written when every
    category file could be read. *)
Theorem master_categories_distinct_and_complete allApps s s' :
  buildMasterIndex localeCompare now fs allApps s = (Normal tt, s') ->
  exists m,
    written s' = (written s ++ [("dist/index.json", MasterArtifact m)])%list /\
    NoDup (map nc_id (m_categories m)) /\
    (forall d, In d (categoryDefinitions (categoryFiles fs)) ->
               In (namespacedIdOf d) (map nc_id (m_categories m))) /\
    Forall (fun entry => snd entry <> None) (categoryFiles fs).
Proof.
  intros H. apply master_collected in H as (m & acc & Hw & Hinv & Hm & Hall).
  exists m. split; [exact Hw|].
  rewrite (master_ids m acc allApps Hinv Hm).
  destruct Hinv as (_ & Hnd & Hdefs & _). auto.
Qed.

(** X13. When two definitions namespace to the same id the first one read
    wins: every master category carries the fields, the original id and the
    project of the first definition, in reading order, with its id. *)
Theorem master_first_definition_wins allApps s s' :
  buildMasterIndex localeCompare now fs allApps s = (Normal tt, s') ->
  exists m,
    written s' = (written s ++ [("dist/index.json", MasterArtifact m)])%list /\
    forall c, In c (m_categories m) ->
      exists projectId,
        nc_project c = Some projectId /\
        originalId c = get "id" (nc_rest c) /\
        firstDefinition (categoryDefinitions (categoryFiles fs)) (nc_id c)
        = Some (projectId, nc_rest c).
Proof.
  intros H. apply master_collected in H as (m & acc & Hw & Hinv & Hm & _).
  exists m. split; [exact Hw|].
  intros c Hin. rewrite Hm in Hin.
  apply in_map_iff in Hin as (e & <- & Hin).
  apply in_map_iff in Hin as ([k e'] & Heq & Hin). cbn [snd] in Heq. subst e'.
  destruct Hinv as (_ & _ & _ & Hent).
  destruct (Hent k e Hin) as (Hid & Ho & Hf).
  exists (ce_project e). cbn [nc_project originalId nc_rest nc_id withCount].
  rewrite Hid. auto.
Qed.

End MasterFurther.

(** ** The driver, further *)

Lemma lastMaster_snoc (w : list (string * artifact)) (path : string) (m : MasterIndex) :
  lastMaster (w ++ [(path, MasterArtifact m)]) = Some m.
Proof.
  induction w as [|[p a] w IH]; cbn [lastMaster List.app]; [reflexivity|].
  now rewrite IH.
Qed.

Lemma appsInCategory_entries (k : string) (records entries : list obj) :
  Forall2 (fun app entry => exists githubMetadata,
               entry = indexEntry app githubMetadata)
    records entries ->
  appsInCategory k entries = appsInCategory k records.
Proof.
  unfold appsInCategory.
  induction 1 as [|app entry records entries [r ->] _ IH]; [reflexivity|].
  cbn [filter].
  assert (Hc : categoryOf (indexEntry app r) = categoryOf app)
    by (unfold categoryOf; now rewrite indexEntry_get by discriminate).
  rewrite Hc.
  destruct (String.eqb (categoryOf app) k); cbn [List.length]; congruence.
Qed.

Lemma hasStringName_entries (records entries : list obj) :
  Forall2 (fun app entry => exists githubMetadata,
               entry = indexEntry app githubMetadata)
    records entries ->
  Forall hasStringName records -> Forall hasStringName entries.
Proof.
  induction 1 as [|app entry records entries [r ->] _ IH]; intros Hn;
    [constructor|].
  inversion Hn as [|? ? [name Hname] Hr]; subst.
  constructor; [|now apply IH].
  exists name. now rewrite indexEntry_get by discriminate.
Qed.

Section DriverFurther.

Variable hostname : string -> option string.
Variable fetch : string -> response.
Variable localeCompare : string -> string -> Z.
Variable now : string.
Variable fs : FileSystem.

(** What the loop over the projects adds to [dist/]: project indexes, in
    loop order, each for a directory whose config parsed and whose category
    file was read, under that directory's name. *)
Lemma projects_loop_writes allApps l s :
  exists s' new,
    for_of l (buildProject localeCompare now fs allApps) tt s = (Normal tt, s') /\
    written s' = (written s ++ new)%list /\
    Forall (fun pa =>
              exists dir projectConfig idx categoriesData,
                In (dir, Some projectConfig) l /\
                assoc dir (categoryFiles fs) = Some (Some categoriesData) /\
                writeSucceeds fs (fst pa) = true /\
                pa = (("dist/" ++ dir ++ ".json")%string, ProjectArtifact idx))
      new /\
    List.length new <= List.length l.
Proof.
  revert s. induction l as [|entry l IH]; intros s; cbn [for_of].
  - exists s, []. rewrite app_nil_r. repeat split; constructor.
  - destruct (buildProject_written localeCompare now fs allApps entry s)
      as (s1 & E & Hw).
    destruct (IH s1) as (s' & new & E' & Hw' & Hf & Hlen).
    unfold bind. rewrite E.
    assert (Hf' : Forall (fun pa =>
              exists dir projectConfig idx categoriesData,
                In (dir, Some projectConfig) (entry :: l) /\
                assoc dir (categoryFiles fs) = Some (Some categoriesData) /\
                writeSucceeds fs (fst pa) = true /\
                pa = (("dist/" ++ dir ++ ".json")%string, ProjectArtifact idx)) new).
    { eapply Forall_impl; [|exact Hf].
      intros pa (dir & cfg & idx & cats & Hin & H). exists dir, cfg, idx, cats.
      split; [now right | exact H]. }
    destruct Hw as [Hw | (cfg & idx & s0 & Hcfg & Hidx & W & Hw)].
    + exists s', new. rewrite Hw', Hw. repeat split; auto. cbn [List.length]. lia.
    + exists s', ((("dist/" ++ fst entry ++ ".json")%string, ProjectArtifact idx) :: new).
      rewrite Hw', Hw, <- app_assoc. split; [exact E'|]. split; [reflexivity|].
      split; [|cbn [List.length]; lia].
      constructor; [|exact Hf'].
      apply buildProjectIndex_Some in Hidx as (cats & Hcats & _).
      exists (fst entry), cfg, idx, cats.
      destruct entry as [dir parsed]. cbn [fst snd] in *. subst parsed.
      repeat split; auto. now left.
Qed.

(** A run that completes: the loader's entries, the project indexes written,
    and the master build that ended it. *)
Lemma buildIndexes_completed s s' :
  buildIndexes hostname fetch localeCompare now fs s = (Normal tt, s') ->
  exists allApps s1 new,
    Forall2 (fun app entry => exists githubMetadata,
                 entry = indexEntry app githubMetadata)
      (parsedApps (appFiles fs)) allApps /\
    written s1 = (written s ++ new)%list /\
    Forall (fun pa =>
              exists dir projectConfig idx categoriesData,
                In (dir, Some projectConfig) (projectFiles fs) /\
                assoc dir (categoryFiles fs) = Some (Some categoriesData) /\
                writeSucceeds fs (fst pa) = true /\
                pa = (("dist/" ++ dir ++ ".json")%string, ProjectArtifact idx))
      new /\
    buildMasterIndex localeCompare now fs allApps s1 = (Normal tt, s').
Proof.
  unfold buildIndexes, mkdirDist, loadAllApps.
  destruct (distExists fs) eqn:D; [|destruct (mkdirSucceeds fs) eqn:K].
  3: { unfold bind, throw. discriminate. }
  all: unfold bind at 1, ret; unfold bind at 1, log at 1; unfold bind at 1;
    match goal with
    | |- context [for_of (appFiles fs) _ [] ?s0] =>
        destruct (loadApps_entries hostname fetch (appFiles fs) [] s0)
          as (allApps & s1 & E & Hw1 & Hf)
    end;
    rewrite E; unfold bind at 1, log at 1; unfold bind at 1;
    match goal with
    | |- context [for_of (projectFiles fs) _ tt ?s0] =>
        destruct (projects_loop_writes ([] ++ allApps)%list (projectFiles fs) s0)
          as (s2 & new & E2 & Hw2 & Hnew & _)
    end;
    rewrite E2; intros H; exists allApps, s2, new;
    (split; [exact Hf|]); (split; [|split; [exact Hnew | exact H]]);
    rewrite Hw2; cbn [written]; now rewrite Hw1.
Qed.

(** X14. A run that completes has written, after what was there, the
    indexes of projects and then the master index, last.  Each project index
    lies under the name of a directory whose config parsed and whose category
    file was read: none is written for a project whose config is malformed or
    whose categories are missing. *)
Theorem completed_run_writes_master_last s s' :
  buildIndexes hostname fetch localeCompare now fs s = (Normal tt, s') ->
  exists new m,
    written s'
    = (written s ++ new ++ [("dist/index.json", MasterArtifact m)])%list /\
    lastMaster (written s') = Some m /\
    List.length new <= List.length (projectFiles fs) /\
    Forall (fun pa =>
              exists dir projectConfig idx categoriesData,
                In (dir, Some projectConfig) (projectFiles fs) /\
                assoc dir (categoryFiles fs) = Some (Some categoriesData) /\
                writeSucceeds fs (fst pa) = true /\
                pa = (("dist/" ++ dir ++ ".json")%string, ProjectArtifact idx))
      new.
Proof.
  unfold buildIndexes, mkdirDist, loadAllApps.
  destruct (distExists fs) eqn:D; [|destruct (mkdirSucceeds fs) eqn:K].
  3: { unfold bind, throw. discriminate. }
  all: unfold bind at 1, ret; unfold bind at 1, log at 1; unfold bind at 1;
    match goal with
    | |- context [for_of (appFiles fs) _ [] ?s0] =>
        destruct (loadApps_entries hostname fetch (appFiles fs) [] s0)
          as (allApps & s1 & E & Hw1 & Hf)
    end;
    rewrite E; unfold bind at 1, log at 1; unfold bind at 1;
    match goal with
    | |- context [for_of (projectFiles fs) _ tt ?s0] =>
        destruct (projects_loop_writes ([] ++ allApps)%list (projectFiles fs) s0)
          as (s2 & new & E2 & Hw2 & Hnew & Hlen)
    end;
    rewrite E2; intros H;
    apply buildMasterIndex_Normal in H as (collected & sorted & _ & _ & _ & Hw);
    eexists new, _;
    rewrite Hw, Hw2; cbn [written]; rewrite Hw1, <- app_assoc;
    (split; [reflexivity|]);
    (split; [rewrite app_assoc; apply lastMaster_snoc|]);
    (split; [exact Hlen | exact Hnew]).
Qed.

Lemma buildMasterIndex_returns allApps s :
  Forall (fun entry => snd entry <> None) (categoryFiles fs) ->
  Forall hasStringName allApps ->
  writeSucceeds fs "dist/index.json" = true ->
  exists s', buildMasterIndex localeCompare now fs allApps s = (Normal tt, s').
Proof.
  intros Hall Hn W.
  destruct (collect_returns (categoryFiles fs) ([], []) Hall) as [r Hr].
  destruct (toSorted_returns localeCompare allApps Hn) as [sorted Hs].
  unfold buildMasterIndex, bind, lift, log, writeFileSync. cbv beta iota.
  rewrite Hr, Hs, W. now eexists.
Qed.

(** X15. A run completes and leaves a master index whenever [dist/] is there
    or can be made, every category file can be read, the record of every app
    file that parses has a string for a name, and [dist/index.json] can be
    written: malformed app files, malformed project configs, failing
    metadata requests and failing project writes do not stand in the way. *)
Theorem build_completes_on_readable_input s :
  distExists fs = true \/ mkdirSucceeds fs = true ->
  Forall (fun entry => snd entry <> None) (categoryFiles fs) ->
  Forall hasStringName (parsedApps (appFiles fs)) ->
  writeSucceeds fs "dist/index.json" = true ->
  exists s' m,
    buildIndexes hostname fetch localeCompare now fs s = (Normal tt, s') /\
    lastMaster (written s') = Some m.
Proof.
  intros Hdist Hcats Hnames W.
  destruct (buildIndexes_steps hostname fetch localeCompare now fs s)
    as [(D & K & _) | (allApps & s0 & s1 & El & _ & E)].
  { destruct Hdist; congruence. }
  unfold loadAllApps in El.
  match type of El with
  | for_of _ _ [] ?st = _ =>
      destruct (loadApps_entries hostname fetch (appFiles fs) [] st)
        as (entries & s0' & El' & _ & Hf)
  end.
  rewrite El in El'. inversion El'; subst.
  destruct (buildMasterIndex_returns ([] ++ entries)%list s1 Hcats
              (hasStringName_entries _ _ Hf Hnames) W) as [s' Hm].
  pose proof Hm as Hm'.
  apply buildMasterIndex_Normal in Hm' as (collected & sorted & _ & _ & _ & Hw).
  eexists s', _. rewrite E. split; [exact Hm|].
  rewrite Hw. apply lastMaster_snoc.
Qed.

(** X16. In the master index of a completed run, the count of a category
    whose id is not a name [Object.prototype] defines is the number of app
    files that parse to a record filed under that id, whatever the projects'
    filters are. *)
Theorem master_counts_parsed_app_files s s' :
  buildIndexes hostname fetch localeCompare now fs s = (Normal tt, s') ->
  exists m,
    lastMaster (written s') = Some m /\
    forall c, In c (m_categories m) ->
      inherited (toString (originalId c)) = false ->
      count c
      = Count (appsInCategory (toString (originalId c)) (parsedApps (appFiles fs))).
Proof.
  intros H.
  apply buildIndexes_completed in H as (allApps & s1 & new & Hf & _ & _ & Hm).
  destruct (master_counts localeCompare now fs allApps s1 s' Hm) as (m & Hw & Hc).
  exists m. split; [rewrite Hw; apply lastMaster_snoc|].
  intros c Hin Hk. rewrite (Hc c Hin Hk). f_equal.
  now apply appsInCategory_entries.
Qed.

End DriverFurther.

(** ** The validator *)

Lemma reportErrors_no_verdict (errors : list ajvError) :
  filter isVerdict (reportErrors errors) = [].
Proof. induction errors; cbn; auto. Qed.

(** The loop over readable files: the result and one verdict per file. *)
Lemma validateEach_readable env validate files allValid out :
  forallb (fileReadable env) files = true ->
  exists lines,
    validateEach env validate files allValid out
    = (inr (allValid && forallb (filePasses env validate) files),
       (out ++ lines)%list) /\
    filter isVerdict lines = map (verdictOf env validate) files.
Proof.
  revert allValid out. induction files as [|file files IH]; intros allValid out Hr.
  - exists []. cbn. now rewrite app_nil_r, andb_true_r.
  - cbn [forallb] in Hr. apply andb_prop in Hr as [Hfile Hr].
    cbn [validateEach forallb map]. unfold validateFile, filePasses at 1, verdictOf at 1.
    unfold fileReadable in Hfile.
    destruct (readFile env file) as [[data|]|]; [| |discriminate].
    + destruct (validate data) as [|error errors].
      * destruct (IH allValid (out ++ [FileValid file])%list Hr) as (lines & E & Hv).
        exists (FileValid file :: lines). rewrite E, <- app_assoc. cbn.
        now rewrite Hv.
      * destruct (IH false (out ++ [FileFailed file]
                              ++ reportErrors (error :: errors))%list Hr)
          as (lines & E & Hv).
        exists (FileFailed file :: reportErrors (error :: errors) ++ lines)%list.
        rewrite E, andb_false_r. split.
        -- f_equal. now rewrite <- !app_assoc.
        -- cbn [filter isVerdict]. rewrite filter_app, reportErrors_no_verdict, Hv.
           reflexivity.
    + destruct (IH false (out ++ [FileInvalidJson file])%list Hr) as (lines & E & Hv).
      exists (FileInvalidJson file :: lines). rewrite E, andb_false_r, <- app_assoc.
      cbn. now rewrite Hv.
Qed.

(** X17. With a schema that is read and that the instance compiles, and
    data files that can all be read, [validateFiles] returns true exactly
    when every matched file parses and validates (so also when no file
    matches), and it prints one verdict per file, in order: a file that fails
    does not keep the later ones from being checked.  The instance has then
    compiled one schema more. *)
Theorem validation_checks_every_file
    env compiled schemaPath pattern label schema validate out :
  readFile env schemaPath = Some (Some schema) ->
  compileSchema env compiled schema = Some validate ->
  forallb (fileReadable env) (globFiles env pattern) = true ->
  exists lines,
    validateFiles env compiled schemaPath pattern label out
    = (inr (forallb (filePasses env validate) (globFiles env pattern)),
       (out ++ Validating label :: lines)%list,
       (compiled ++ [schema])%list) /\
    filter isVerdict lines = map (verdictOf env validate) (globFiles env pattern).
Proof.
  intros Hs Hc Hr. unfold validateFiles. cbv zeta. rewrite Hs, Hc.
  destruct (globFiles env pattern) as [|file files] eqn:G.
  - exists [NoFilesFound pattern]. cbn. now rewrite <- app_assoc.
  - destruct (validateEach_readable env validate (file :: files) true
                (out ++ [Validating label])%list Hr) as (lines & E & Hv).
    exists lines. rewrite E, <- app_assoc. cbn [andb List.app]. auto.
Qed.

Lemma validateEach_unreadable env validate before file after allValid out :
  forallb (fileReadable env) before = true ->
  readFile env file = None ->
  exists lines,
    validateEach env validate (before ++ file :: after) allValid out
    = (inl (ReadFailed file), (out ++ lines)%list) /\
    filter isVerdict lines = map (verdictOf env validate) before.
Proof.
  intros Hb Hf. revert allValid out.
  induction before as [|b before IH]; intros allValid out.
  - exists []. cbn [List.app validateEach map filter]. unfold validateFile.
    rewrite Hf, app_nil_r. auto.
  - cbn [forallb] in Hb. apply andb_prop in Hb as [Hfile Hb].
    cbn [List.app validateEach map]. unfold validateFile, verdictOf at 1.
    unfold fileReadable in Hfile.
    destruct (readFile env b) as [[data|]|]; [| |discriminate].
    + destruct (validate data) as [|error errors].
      * destruct (IH Hb allValid (out ++ [FileValid b])%list) as (lines & E & Hv).
        exists (FileValid b :: lines). rewrite E, <- app_assoc. cbn.
        now rewrite Hv.
      * destruct (IH Hb false (out ++ [FileFailed b]
                                 ++ reportErrors (error :: errors))%list)
          as (lines & E & Hv).
        exists (FileFailed b :: reportErrors (error :: errors) ++ lines)%list.
        rewrite E. split.
        -- f_equal. now rewrite <- !app_assoc.
        -- cbn [filter isVerdict]. rewrite filter_app, reportErrors_no_verdict, Hv.
           reflexivity.
    + destruct (IH Hb false (out ++ [FileInvalidJson b])%list) as (lines & E & Hv).
      exists (FileInvalidJson b :: lines). rewrite E, <- app_assoc.
      cbn. now rewrite Hv.
Qed.

(** X18. A data file that cannot be read is not caught: [validateFiles]
    throws at the first such file, after the verdicts of the files before it,
    and the files behind it get no verdict. *)
Theorem unreadable_file_stops_validation
    env compiled schemaPath pattern label schema validate before file after out :
  readFile env schemaPath = Some (Some schema) ->
  compileSchema env compiled schema = Some validate ->
  globFiles env pattern = (before ++ file :: after)%list ->
  forallb (fileReadable env) before = true ->
  readFile env file = None ->
  exists lines,
    validateFiles env compiled schemaPath pattern label out
    = (inl (ReadFailed file), (out ++ Validating label :: lines)%list,
       (compiled ++ [schema])%list) /\
    filter isVerdict lines = map (verdictOf env validate) before.
Proof.
  intros Hs Hc Hg Hb Hf. unfold validateFiles. cbv zeta. rewrite Hs, Hc, Hg.
  destruct (validateEach_unreadable env validate before file after true
              (out ++ [Validating label])%list Hb Hf) as (lines & E & Hv).
  exists lines. rewrite <- app_assoc in E. cbn [List.app] in E.
  destruct (before ++ file :: after)%list eqn:L.
  - now destruct before.
  - now rewrite E.
Qed.

Lemma validateEach_true env validate files allValid out :
  fst (validateEach env validate files allValid out) = inr true
  <-> allValid = true /\ forallb (filePasses env validate) files = true.
Proof.
  revert allValid out. induction files as [|file files IH]; intros allValid out.
  - cbn. split; [intros H; inversion H; auto | intros [-> _]; reflexivity].
  - cbn [validateEach forallb]. unfold validateFile, filePasses at 1.
    destruct (readFile env file) as [[data|]|].
    + destruct (validate data) as [|error errors]; rewrite IH; cbn [andb];
        intuition congruence.
    + rewrite IH. cbn [andb]. intuition congruence.
    + cbn. intuition congruence.
Qed.

(** The run of the validations, step by step against [validationsPass]. *)
Lemma runValidations_true env vs allValid out compiled :
  fst (fst (runValidations env vs allValid out compiled)) = inr true
  <-> allValid = true /\ validationsPass env compiled vs = true.
Proof.
  revert allValid out compiled.
  induction vs as [|[[schemaPath pattern] label] vs IH]; intros allValid out compiled.
  - cbn. split; [intros H; inversion H; auto | intros [-> _]; reflexivity].
  - cbn [runValidations validationsPass]. unfold validateFiles. cbv zeta.
    destruct (readFile env schemaPath) as [[schema|]|];
      try (cbn; intuition congruence).
    destruct (compileSchema env compiled schema) as [validate|];
      try (cbn; intuition congruence).
    destruct (globFiles env pattern) as [|file files] eqn:G.
    + rewrite IH. cbn [forallb andb]. tauto.
    + pose proof (validateEach_true env validate (file :: files) true
                    (out ++ [Validating label])%list) as Hv.
      destruct (validateEach env validate (file :: files) true
                  (out ++ [Validating label])%list) as [[e|result] out'].
      * cbn [fst] in *.
        destruct (forallb (filePasses env validate) (file :: files)).
        -- destruct Hv as [_ Hv]. discriminate (Hv (conj eq_refl eq_refl)).
        -- cbn [andb]. intuition congruence.
      * rewrite IH. cbn [fst] in Hv.
        destruct result, (forallb (filePasses env validate) (file :: files));
          cbn [andb]; intuition congruence.
Qed.

(** X19. The validator exits with status 0 exactly when each of the three
    schemas, in turn, is read and is compiled by the one Ajv instance as the
    schemas before it left it, and every file its pattern matches can be
    read, parses and validates; in every other case, a thrown error included
    (a schema the instance refuses because it already holds its [$id], for
    one), it exits with status 1. *)
Theorem validator_exit_status env :
  (fst (validateMain env) = 0%Z
   <-> validationsPass env [] validations = true) /\
  (fst (validateMain env) = 0%Z \/ fst (validateMain env) = 1%Z).
Proof.
  unfold validateMain.
  pose proof (runValidations_true env validations true [] []) as H.
  destruct (runValidations env validations true [] []) as [[[e|[|]] out] compiled];
    cbn [fst] in *; split; auto.
  - split; [discriminate|]. intros Hp.
    destruct H as [_ H]. discriminate (H (conj eq_refl Hp)).
  - split; [intros _; now apply H | reflexivity].
  - split; [discriminate|]. intros Hp.
    destruct H as [_ H]. discriminate (H (conj eq_refl Hp)).
Qed.





(** ** The pattern of the client and the filters, further *)

Lemma spanNonSlash_spec (s run rest : string) :
  spanNonSlash s = (run, rest) ->
  slashFree run = true /\ s = run ++ rest /\ endsSegment rest = true.
Proof.
  revert run rest. induction s as [|c s IH]; intros run rest H; cbn [spanNonSlash] in H.
  - inversion H. auto.
  - destruct (Ascii.eqb c slash) eqn:E.
    + inversion H. cbn. auto.
    + destruct (spanNonSlash s) as [run' rest'].
      inversion H; subst. destruct (IH run' rest eq_refl) as (Hf & -> & He).
      cbn. rewrite E. auto.
Qed.

Lemma matchRepoAt_groups (s owner repo : string) :
  matchRepoAt s = Some (owner, repo) ->
  slashFree owner = true /\ owner <> "" /\ slashFree repo = true /\ repo <> "" /\
  exists rest,
    s = "github.com/" ++ owner ++ "/" ++ repo ++ rest /\ endsSegment rest = true.
Proof.
  unfold matchRepoAt.
  destruct (stripPrefix "github.com/" s) as [r|] eqn:P; [|discriminate].
  apply stripPrefix_Some in P. subst s.
  destruct (spanNonSlash r) as [o r1] eqn:So.
  apply spanNonSlash_spec in So as (Ho & -> & He).
  destruct o as [|c o]; [discriminate|]. cbn [isEmpty].
  destruct r1 as [|c1 r2]; [discriminate|].
  destruct (spanNonSlash r2) as [rp rest] eqn:Sr.
  apply spanNonSlash_spec in Sr as (Hr & -> & Hrest).
  destruct rp as [|c2 rp]; [discriminate|]. cbn [isEmpty].
  intros H. inversion H; subst.
  cbn [endsSegment] in He. apply Ascii.eqb_eq in He. subst c1.
  repeat split; try assumption; try discriminate.
  exists rest. split; [reflexivity | exact Hrest].
Qed.

Lemma execRepo_groups (s owner repo : string) :
  execRepo s = Some (owner, repo) ->
  slashFree owner = true /\ owner <> "" /\ slashFree repo = true /\ repo <> "" /\
  exists before rest,
    s = before ++ "github.com/" ++ owner ++ "/" ++ repo ++ rest /\
    endsSegment rest = true.
Proof.
  induction s as [|c s IH]; rewrite execRepo_unfold.
  - destruct (matchRepoAt "") as [m|] eqn:M; [|discriminate].
    intros H. inversion H; subst.
    apply matchRepoAt_groups in M as (? & ? & ? & ? & rest & ? & ?).
    repeat split; auto. now exists "", rest.
  - destruct (matchRepoAt (String c s)) as [m|] eqn:M.
    + intros H. inversion H; subst.
      apply matchRepoAt_groups in M as (? & ? & ? & ? & rest & ? & ?).
      repeat split; auto. now exists "", rest.
    + intros H. apply IH in H as (? & ? & ? & ? & before & rest & -> & ?).
      repeat split; auto. now exists (String c before), rest.
Qed.

Lemma slashFree_append_l (a b : string) :
  slashFree (a ++ b) = true -> slashFree a = true.
Proof.
  induction a as [|c a IH]; cbn; [reflexivity|].
  intros H. apply andb_prop in H as [Hc H]. now rewrite Hc, IH.
Qed.

Lemma stripGitSuffix_slashFree (repo : string) :
  slashFree repo = true -> slashFree (stripGitSuffix repo) = true.
Proof.
  intros H.
  destruct (stripGitSuffix_cases repo) as [-> | E]; [exact H|].
  rewrite E in H. now apply slashFree_append_l in H.
Qed.

(** X21. The pattern yields an owner and a repository that are non-empty and
    hold no slash, found behind [github.com/] in the link; so the only
    addresses the client ever requests are
    [https://api.github.com/repos/owner/repo] with two slash-free segments:
    two networks that agree on those addresses get the same answer from the
    client for every link. *)
Theorem client_requests_only_the_repository_endpoint hostname :
  (forall text owner repo,
      execRepo text = Some (owner, repo) ->
      slashFree owner = true /\ owner <> "" /\
      slashFree repo = true /\ repo <> "" /\
      exists before rest,
        text = before ++ "github.com/" ++ owner ++ "/" ++ repo ++ rest /\
        endsSegment rest = true) /\
  (forall fetch1 fetch2,
      (forall owner repo,
          slashFree owner = true -> slashFree repo = true ->
          fetch1 (repositoryEndpoint owner repo)
          = fetch2 (repositoryEndpoint owner repo)) ->
      forall repoUrl s,
        fetchGitHubMetadata hostname fetch1 repoUrl s
        = fetchGitHubMetadata hostname fetch2 repoUrl s).
Proof.
  split; [exact execRepo_groups|].
  intros fetch1 fetch2 Hagree repoUrl s.
  unfold fetchGitHubMetadata.
  destruct (negb (truthy repoUrl)); [reflexivity|].
  unfold try_catch, requestMetadata.
  destruct (hostname (toString repoUrl)) as [host|]; [|reflexivity].
  destruct (negb (host =? "github.com")); [reflexivity|].
  destruct (execRepo (toString repoUrl)) as [[owner repo]|] eqn:E; [|reflexivity].
  apply execRepo_groups in E as (Ho & _ & Hr & _).
  fold (repositoryEndpoint owner (stripGitSuffix repo)).
  now rewrite (Hagree owner (stripGitSuffix repo) Ho (stripGitSuffix_slashFree repo Hr)).
Qed.

Lemma filter_twice {A} (f g : A -> bool) (l : list A) :
  filter f (filter g l) = filter (fun x => g x && f x) l.
Proof.
  induction l as [|x l IH]; cbn [filter]; [reflexivity|].
  destruct (g x); cbn [filter andb]; [destruct (f x)|]; now rewrite IH.
Qed.

Lemma filter_all {A} (l : list A) : filter (fun _ => true) l = l.
Proof. induction l; cbn; congruence. Qed.

Lemma filterIncludeOnly_passes cfg l :
  filterIncludeOnly cfg l = filter (passesIncludeOnly cfg) l.
Proof.
  unfold filterIncludeOnly, passesIncludeOnly.
  destruct (include_only cfg) as [[|id ids]|]; cbn; auto using filter_all, eq_sym.
Qed.

Lemma filterExcludeApps_passes cfg l :
  filterExcludeApps cfg l = filter (passesExcludeApps cfg) l.
Proof.
  unfold filterExcludeApps, passesExcludeApps.
  destruct (exclude_apps cfg) as [[|id ids]|]; cbn; auto using filter_all, eq_sym.
Qed.

Lemma filterFeaturedCategories_passes cfg l :
  filterFeaturedCategories cfg l = filter (passesFeaturedCategories cfg) l.
Proof.
  unfold filterFeaturedCategories, passesFeaturedCategories.
  destruct (featured_categories cfg) as [[|id ids]|]; cbn;
    auto using filter_all, eq_sym.
Qed.

(** X22. The three filters amount to one test per app: an app is kept
    exactly when it passes [include_only], [exclude_apps] and
    [featured_categories] (a list that is absent or empty lets everything
    pass).  So the order in which the filters run does not show in the
    result, and filtering a filtered list changes nothing. *)
Theorem filters_are_one_test projectConfig l :
  applyFilters projectConfig l = filter (survives projectConfig) l /\
  filterExcludeApps projectConfig (filterIncludeOnly projectConfig l)
  = filterIncludeOnly projectConfig (filterExcludeApps projectConfig l) /\
  filterFeaturedCategories projectConfig (filterExcludeApps projectConfig l)
  = filterExcludeApps projectConfig (filterFeaturedCategories projectConfig l) /\
  filterFeaturedCategories projectConfig (filterIncludeOnly projectConfig l)
  = filterIncludeOnly projectConfig (filterFeaturedCategories projectConfig l) /\
  applyFilters projectConfig (applyFilters projectConfig l)
  = applyFilters projectConfig l.
Proof.
  assert (Hone : forall l', applyFilters projectConfig l'
                            = filter (survives projectConfig) l').
  { intros l'. unfold applyFilters.
    rewrite filterFeaturedCategories_passes, filterExcludeApps_passes,
      filterIncludeOnly_passes, !filter_twice.
    apply filter_ext. intros a. unfold survives. now rewrite andb_assoc. }
  split; [apply Hone|].
  rewrite !filterFeaturedCategories_passes, !filterExcludeApps_passes,
    !filterIncludeOnly_passes, !filter_twice.
  rewrite ?filterExcludeApps_passes, ?filterIncludeOnly_passes,
    ?filterFeaturedCategories_passes, ?filter_twice.
  repeat split; try (apply filter_ext; intros; apply andb_comm).
  rewrite !Hone, filter_twice. apply filter_ext. intros a.
  now destruct (survives projectConfig a).
Qed.

(** ** The further properties on concrete inputs *)

(** Witness for X2: the link of [moonlightApp]. *)
Lemma repository_link_is_enriched_witness :
  fetchGitHubMetadata httpHostname moonlightApi
    (Some (JStr ("https://github.com/" ++ "moonlight-stream" ++ "/"
                   ++ "moonlight-qt.git" ++ ""))) noEffects
  = (Normal (Some [("stars", JNum 7); ("license", JNull)]), noEffects).
Proof.
  apply (repository_link_is_enriched httpHostname moonlightApi
           "moonlight-stream" "moonlight-qt.git" ""
           (JObj [("stargazers_count", JNum 7); ("license", JNull)]) noEffects);
    try reflexivity; discriminate.
Defined.

(** Witness for X4: a response with a star count and an MIT license. *)
Lemma metadata_is_a_narrow_projection_witness :
  In "stars" ["stars"; "openIssues"; "forks"; "lastUpdated"; "license"] /\
  get "license"
    (metadataOf (JObj [("stargazers_count", JNum 7); ("id", JNum 1);
                       ("license", JObj [("spdx_id", JStr "MIT")])]))
  = Some (JStr "MIT").
Proof.
  pose proof (metadata_is_a_narrow_projection
                (JObj [("stargazers_count", JNum 7); ("id", JNum 1);
                       ("license", JObj [("spdx_id", JStr "MIT")])]))
    as (_ & _ & _ & _ & Hl & Hk & _).
  split; [apply Hk; discriminate | exact Hl].
Defined.

(** Witness for X6: project [beta] of [missingCategoriesFs]. *)
Lemma project_without_categories_is_skipped_witness :
  assoc "beta" (categoryFiles missingCategoriesFs) = None /\
  buildProject asciiCollate buildTime missingCategoriesFs [zetaApp; alphaApp] tt
    ("beta", Some (plainConfig "beta" "Beta")) noEffects
  = (Normal tt,
     {| console := [BuildingProject "Beta";
                    CategoriesNotFound "beta" "projects/beta/categories.json"];
        written := [] |}).
Proof.
  split; [reflexivity|].
  apply (proj2 (project_without_categories_is_skipped asciiCollate buildTime
                  missingCategoriesFs "beta" (plainConfig "beta" "Beta")
                  [zetaApp; alphaApp] noEffects eq_refl)).
Defined.

(** Witness for X7: with [zeta] excluded, [client] counts no app. *)
Lemma project_counts_filtered_apps_witness :
  exists idx,
    buildProjectIndex asciiCollate buildTime sunshineFs "sunshine" filteringConfig
      [zetaApp; alphaApp] noEffects
    = (Normal (Some idx), noEffects) /\
    map count (categories idx) = [Count 0; Count 1] /\
    forall c, In c (categories idx) ->
      inherited (toString (originalId c)) = false ->
      count c
      = Count (appsInCategory (toString (originalId c))
                 (applyFilters filteringConfig [zetaApp; alphaApp])) /\
      appsInCategory (toString (originalId c))
        (applyFilters filteringConfig [zetaApp; alphaApp])
      <= appsInCategory (toString (originalId c)) [zetaApp; alphaApp].
Proof.
  eexists. split; [reflexivity|]. split; [reflexivity|].
  apply (project_counts_filtered_apps asciiCollate buildTime sunshineFs "sunshine"
           filteringConfig [zetaApp; alphaApp] noEffects _ noEffects).
  reflexivity.
Defined.

(** Witness for X8: the one category of [taggedCategoryFs], whose
    definition brings a [project] field. *)
Lemma project_categories_follow_definitions_witness :
  exists idx,
    buildProjectIndex asciiCollate buildTime taggedCategoryFs "sunshine"
      sunshineConfig [zetaApp; alphaApp] noEffects
    = (Normal (Some idx), noEffects) /\
    map nc_id (categories idx) = ["sunshine:client"] /\
    map (fun c => categoryField c "project") (categories idx)
    = [Some (JStr "other")] /\
    exists categoriesData,
      assoc "sunshine" (categoryFiles taggedCategoryFs) = Some (Some categoriesData) /\
      Forall2
        (fun cat c =>
           nc_id c = "sunshine" ++ ":" ++ toString (get "id" cat) /\
           originalId c = get "id" cat /\
           forall k, k <> "id" -> k <> "originalId" -> k <> "count" ->
                     categoryField c k = get k cat)
        categoriesData (categories idx).
Proof.
  eexists. split; [reflexivity|]. split; [reflexivity|]. split; [reflexivity|].
  apply (project_categories_follow_definitions asciiCollate buildTime
           taggedCategoryFs "sunshine" sunshineConfig [zetaApp; alphaApp]
           noEffects _ noEffects).
  reflexivity.
Defined.

(** Witness for X9: the apps of the [sunshine] index. *)
Lemma namespacing_keeps_other_fields_witness :
  exists idx,
    buildProjectIndex asciiCollate buildTime sunshineFs "sunshine" sunshineConfig
      [zetaApp; alphaApp] noEffects
    = (Normal (Some idx), noEffects) /\
    List.length (apps idx) = 2 /\
    forall app, In app (apps idx) ->
      exists original,
        In original (applyFilters sunshineConfig [zetaApp; alphaApp]) /\
        get "category" app = Some (JStr ("sunshine" ++ ":" ++ categoryOf original)) /\
        forall k, k <> "category" -> get k app = get k original.
Proof.
  eexists. split; [reflexivity|].
  apply (namespacing_keeps_other_fields asciiCollate buildTime sunshineFs
           "sunshine" sunshineConfig [zetaApp; alphaApp] noEffects _ noEffects).
  reflexivity.
Defined.

Lemma zeta_alpha_names : Forall hasStringName [alphaApp; zetaApp].
Proof. repeat constructor; eexists; reflexivity. Qed.

(** Witness for X10: [Alpha, Zeta] sorts to [Zeta, Alpha], which sorts to
    itself. *)
Lemma sorting_is_idempotent_witness :
  toSorted asciiCollate [alphaApp; zetaApp] = Normal [zetaApp; alphaApp] /\
  toSorted asciiCollate [zetaApp; alphaApp] = Normal [zetaApp; alphaApp].
Proof.
  split; [reflexivity|].
  apply (proj2 (sorting_is_idempotent asciiCollate) asciiCollate_total
           [alphaApp; zetaApp] [zetaApp; alphaApp] zeta_alpha_names).
  reflexivity.
Defined.

Lemma featured_sample_names :
  Forall hasStringName [alphaApp; zetaApp; guestApp; moonlightApp].
Proof. repeat constructor; eexists; reflexivity. Qed.

(** Witness for X11: of four apps the two featured ones come out first;
    [Moonlight] stands before [Zeta], which is featured, and is featured
    itself, and [Zeta] stands two places before [Alpha]. *)
Lemma featured_apps_come_first_witness :
  toSorted asciiCollate [alphaApp; zetaApp; guestApp; moonlightApp]
  = Normal [moonlightApp; zetaApp; guestApp; alphaApp] /\
  comesBefore [moonlightApp; zetaApp; guestApp; alphaApp] moonlightApp zetaApp /\
  featured zetaApp = true /\
  featured moonlightApp = true.
Proof.
  assert (H : comesBefore [moonlightApp; zetaApp; guestApp; alphaApp]
                moonlightApp zetaApp)
    by (exists 0, 1; repeat split; lia).
  split; [reflexivity|]. split; [exact H|]. split; [reflexivity|].
  apply (proj1 (featured_apps_come_first asciiCollate buildTime sunshineFs
                  asciiCollate_total)
           [alphaApp; zetaApp; guestApp; moonlightApp]
           [moonlightApp; zetaApp; guestApp; alphaApp]
           featured_sample_names eq_refl moonlightApp zetaApp H).
  reflexivity.
Defined.

(** Witness for X12: the master categories of [sunshineFs]. *)
Lemma master_categories_distinct_and_complete_witness :
  exists s' m,
    buildMasterIndex asciiCollate buildTime sunshineFs [zetaApp; alphaApp] noEffects
    = (Normal tt, s') /\
    written s' = (written noEffects ++ [("dist/index.json", MasterArtifact m)])%list /\
    NoDup (map nc_id (m_categories m)) /\
    (forall d, In d (categoryDefinitions (categoryFiles sunshineFs)) ->
               In (namespacedIdOf d) (map nc_id (m_categories m))) /\
    Forall (fun entry => snd entry <> None) (categoryFiles sunshineFs).
Proof.
  eexists.
  match goal with
  | |- exists m, ?run = (Normal tt, ?s') /\ _ =>
      destruct (master_categories_distinct_and_complete asciiCollate buildTime
                  sunshineFs [zetaApp; alphaApp] noEffects s' eq_refl)
        as (m & H)
  end.
  exists m. split; [reflexivity | exact H].
Defined.

(** Witness for X13: of the two definitions of [client], [Clients] is kept. *)
Lemma master_first_definition_wins_witness :
  exists s' m,
    buildMasterIndex asciiCollate buildTime duplicateCategoryFs [zetaApp; alphaApp]
      noEffects
    = (Normal tt, s') /\
    written s' = (written noEffects ++ [("dist/index.json", MasterArtifact m)])%list /\
    map nc_rest (m_categories m) = [[("id", JStr "client"); ("name", JStr "Clients")]] /\
    forall c, In c (m_categories m) ->
      exists projectId,
        nc_project c = Some projectId /\
        originalId c = get "id" (nc_rest c) /\
        firstDefinition (categoryDefinitions (categoryFiles duplicateCategoryFs))
          (nc_id c)
        = Some (projectId, nc_rest c).
Proof.
  eexists.
  match goal with
  | |- exists m, ?run = (Normal tt, ?s') /\ _ =>
      destruct (master_first_definition_wins asciiCollate buildTime
                  duplicateCategoryFs [zetaApp; alphaApp] noEffects s' eq_refl)
        as (m & Hw & H)
  end.
  exists m. split; [reflexivity|]. split; [exact Hw|]. split; [|exact H].
  cbn [written noEffects List.app] in Hw. inversion Hw. reflexivity.
Defined.

(** Witness for X14: the run over [missingCategoriesFs] writes the index of
    [sunshine] and then the master index. *)
Lemma completed_run_writes_master_last_witness :
  exists s' new m,
    buildIndexes httpHostname noFetch asciiCollate buildTime missingCategoriesFs
      noEffects
    = (Normal tt, s') /\
    written s'
    = (written noEffects ++ new ++ [("dist/index.json", MasterArtifact m)])%list /\
    map fst new = ["dist/sunshine.json"] /\
    lastMaster (written s') = Some m.
Proof.
  eexists.
  match goal with
  | |- exists new m, ?run = (Normal tt, ?s') /\ _ =>
      destruct (completed_run_writes_master_last httpHostname noFetch asciiCollate
                  buildTime missingCategoriesFs noEffects s' eq_refl)
        as (new & m & Hw & Hl & _ & _)
  end.
  exists new, m. split; [reflexivity|]. split; [exact Hw|]. split; [|exact Hl].
  cbn [written noEffects List.app] in Hw.
  destruct new as [|[p a] [|pa new]]; cbn [List.app] in Hw; inversion Hw.
  - reflexivity.
  - destruct new; discriminate.
Defined.

(** Witness for X15: [sunshineFs] is readable throughout. *)
Lemma build_completes_on_readable_input_witness :
  exists s' m,
    buildIndexes httpHostname noFetch asciiCollate buildTime sunshineFs noEffects
    = (Normal tt, s') /\
    lastMaster (written s') = Some m.
Proof.
  apply (build_completes_on_readable_input httpHostname noFetch asciiCollate
           buildTime sunshineFs noEffects).
  - left. reflexivity.
  - repeat constructor; discriminate.
  - repeat constructor; eexists; reflexivity.
  - reflexivity.
Defined.

(** Witness for X16: one app file under [client], one under [tool]. *)
Lemma master_counts_parsed_app_files_witness :
  exists s' m,
    buildIndexes httpHostname noFetch asciiCollate buildTime sunshineFs noEffects
    = (Normal tt, s') /\
    lastMaster (written s') = Some m /\
    map count (m_categories m) = [Count 1; Count 1] /\
    forall c, In c (m_categories m) ->
      inherited (toString (originalId c)) = false ->
      count c
      = Count (appsInCategory (toString (originalId c))
                 (parsedApps (appFiles sunshineFs))).
Proof.
  eexists.
  match goal with
  | |- exists m, ?run = (Normal tt, ?s') /\ _ =>
      destruct (master_counts_parsed_app_files httpHostname noFetch asciiCollate
                  buildTime sunshineFs noEffects s' eq_refl)
        as (m & Hl & H)
  end.
  exists m. split; [reflexivity|]. split; [exact Hl|]. split; [|exact H].
  cbn in Hl. inversion Hl. reflexivity.
Defined.

(** Witness for X17: of three app files one validates; all three get a
    verdict. *)
Lemma validation_checks_every_file_witness :
  exists validate lines,
    compileSchema sampleTree [] (JObj [("id", JStr "schemas/app.schema.json")])
    = Some validate /\
    validateFiles sampleTree [] "schemas/app.schema.json" "apps/**/*.json"
      "app definitions" []
    = (inr false, ([] ++ Validating "app definitions" :: lines)%list,
       ([] ++ [JObj [("id", JStr "schemas/app.schema.json")]])%list) /\
    filter isVerdict lines
    = [FileFailed "apps/nameless.json"; FileInvalidJson "apps/broken.json";
       FileValid "apps/zeta.json"].
Proof.
  eexists.
  destruct (validation_checks_every_file sampleTree [] "schemas/app.schema.json"
              "apps/**/*.json" "app definitions"
              (JObj [("id", JStr "schemas/app.schema.json")]) _ []
              eq_refl eq_refl eq_refl) as (lines & E & Hv).
  exists lines. split; [reflexivity|]. split; [exact E | exact Hv].
Defined.

(** Witness for X18: the locked file stops the loop before [zeta]. *)
Lemma unreadable_file_stops_validation_witness :
  exists validate lines,
    compileSchema lockedTree [] (JObj [("id", JStr "schemas/app.schema.json")])
    = Some validate /\
    validateFiles lockedTree [] "schemas/app.schema.json" "apps/**/*.json"
      "app definitions" []
    = (inl (ReadFailed "apps/locked.json"),
       ([] ++ Validating "app definitions" :: lines)%list,
       ([] ++ [JObj [("id", JStr "schemas/app.schema.json")]])%list) /\
    filter isVerdict lines = [FileInvalidJson "apps/broken.json"].
Proof.
  eexists.
  destruct (unreadable_file_stops_validation lockedTree [] "schemas/app.schema.json"
              "apps/**/*.json" "app definitions"
              (JObj [("id", JStr "schemas/app.schema.json")]) _
              ["apps/broken.json"] "apps/locked.json" ["apps/zeta.json"] []
              eq_refl eq_refl eq_refl eq_refl eq_refl) as (lines & E & Hv).
  exists lines. split; [reflexivity|]. split; [exact E | exact Hv].
Defined.

(** Witness for X19: [cleanTree] passes and [sampleTree] does not; in
    [sameIdTree] every file validates and each schema alone compiles, but the
    second schema repeats the [$id] of the first: the instance refuses it and
    the validator exits with status 1. *)
Lemma validator_exit_status_witness :
  fst (validateMain cleanTree) = 0%Z /\
  fst (validateMain sampleTree) = 1%Z /\
  (forallb (fun v => validationsPass sameIdTree [] [v]) validations = true /\
   validationsPass sameIdTree [] validations = false /\
   validateMain sameIdTree
   = (1%Z, [Validating "app definitions"; FileValid "apps/zeta.json";
            Validating "project configs";
            ValidateError (SchemaRejected "schemas/project.schema.json")])).
Proof.
  split; [|split].
  - apply (proj1 (validator_exit_status cleanTree)). reflexivity.
  - destruct (validator_exit_status sampleTree) as [Hiff [H0 | H1]]; [|exact H1].
    apply Hiff in H0. discriminate H0.
  - split; [reflexivity|]. split; [reflexivity|].
    destruct (validator_exit_status sameIdTree) as [Hiff [H0 | H1]].
    + apply Hiff in H0. discriminate H0.
    + reflexivity.
Defined.


(** Witness for X21: the groups found in the link of [moonlightApp]. *)
Lemma client_requests_only_the_repository_endpoint_witness :
  execRepo "https://github.com/moonlight-stream/moonlight-qt.git"
  = Some ("moonlight-stream", "moonlight-qt.git") /\
  slashFree "moonlight-stream" = true /\ slashFree "moonlight-qt.git" = true.
Proof.
  split; [reflexivity|].
  destruct (proj1 (client_requests_only_the_repository_endpoint httpHostname)
              "https://github.com/moonlight-stream/moonlight-qt.git"
              "moonlight-stream" "moonlight-qt.git" eq_refl)
    as (Ho & _ & Hr & _).
  split; [exact Ho | exact Hr].
Defined.
